(** * recipe-app-api: the recipe serializers and the storage they write to

    A shallow embedding of [app/recipe/serializers.py]: the declarative
    [Meta] field lists, the nested get-or-create helpers and the [create]
    and [update] methods of [RecipeSerializer], over an explicit model of
    the relational store (tables keyed by primary key, many-to-many
    association sets) and of the exceptions the ORM calls can raise. *)

From stdpp Require Import gmap strings list sorting pretty.
From Stdlib Require Import ZArith.

Local Open Scope Z_scope.

(** ** Values on the wire and in [validated_data] *)

(** A leaf value: [None], an integer, or a string (decimals travel as
    strings, as the framework renders them). *)
Inductive scalar :=
  | Null
  | Int (n : Z)
  | Str (s : string).

#[global] Instance scalar_eq_dec : EqDecision scalar.
Proof. solve_decision. Defined.

(** A Python [dict] with string keys, in insertion order. *)
Abbreviation dict V := (list (string * V)) (only parsing).

(** A payload value: a leaf, or a list of nested objects such as
    [[{'name': 'Thai'}, {'name': 'Prawn'}]]. *)
Inductive value :=
  | Scalar (x : scalar)
  | Items (l : list (dict scalar)).

#[global] Instance value_eq_dec : EqDecision value.
Proof. solve_decision. Defined.

(** [d.get(k)] *)
Fixpoint get {V} (k : string) (d : dict V) : option V :=
  match d with
  | [] => None
  | (k', v) :: d' => if decide (k' = k) then Some v else get k d'
  end.

(** [d[k] = v] *)
Fixpoint set_item {V} (k : string) (v : V) (d : dict V) : dict V :=
  match d with
  | [] => [(k, v)]
  | (k', v') :: d' =>
      if decide (k' = k) then (k, v) :: d' else (k', v') :: set_item k v d'
  end.

(** [del d[k]] (no error when absent) *)
Definition remove {V} (k : string) (d : dict V) : dict V :=
  filter (λ kv, kv.1 ≠ k) d.

(** [d.pop(k, default)]: the value and the dictionary left behind. *)
Definition pop {V} (k : string) (default : V) (d : dict V) : V * dict V :=
  (from_option id default (get k d), remove k d).

(** ** The store *)

(** A [Tag] or [Ingredient] row: [{id, name, user}], the id being the key
    of the row in its table. *)
Record Named := mkNamed {
  row_user : Z;
  row_name : string;
}.

#[global] Instance Named_eq_dec : EqDecision Named.
Proof. solve_decision. Defined.

(** A table with its primary-key sequence. *)
Record Table := mkTable {
  rows : gmap Z Named;
  next_id : Z;
}.

(** A [Recipe] row; [tags] and [ingredient] live in the association sets. *)
Record Recipe := mkRecipe {
  recipe_user : Z;
  title : scalar;
  time_minutes : scalar;
  price : scalar;
  link : scalar;
  description : scalar;
  image : scalar;
}.

#[global] Instance Recipe_eq_dec : EqDecision Recipe.
Proof. solve_decision. Defined.

Record Store := mkStore {
  Tag_objects : Table;
  Ingredient_objects : Table;
  Recipe_objects : gmap Z Recipe;
  Recipe_next_id : Z;
  recipe_tags : gset (Z * Z);        (* (recipe id, tag id) *)
  recipe_ingredient : gset (Z * Z);  (* (recipe id, ingredient id) *)
}.

(** The two many-to-many relations of a recipe: [recipe.tags] and
    [recipe.ingredient]. *)
Inductive related := Tags | Ingredients.

#[global] Instance related_eq_dec : EqDecision related.
Proof. solve_decision. Defined.

Definition manager (k : related) (s : Store) : Table :=
  match k with
  | Tags => Tag_objects s
  | Ingredients => Ingredient_objects s
  end.

Definition set_manager (k : related) (t : Table) (s : Store) : Store :=
  match k with
  | Tags =>
      mkStore t (Ingredient_objects s) (Recipe_objects s) (Recipe_next_id s)
        (recipe_tags s) (recipe_ingredient s)
  | Ingredients =>
      mkStore (Tag_objects s) t (Recipe_objects s) (Recipe_next_id s)
        (recipe_tags s) (recipe_ingredient s)
  end.

Definition through (k : related) (s : Store) : gset (Z * Z) :=
  match k with
  | Tags => recipe_tags s
  | Ingredients => recipe_ingredient s
  end.

Definition set_through (k : related) (a : gset (Z * Z)) (s : Store) : Store :=
  match k with
  | Tags =>
      mkStore (Tag_objects s) (Ingredient_objects s) (Recipe_objects s)
        (Recipe_next_id s) a (recipe_ingredient s)
  | Ingredients =>
      mkStore (Tag_objects s) (Ingredient_objects s) (Recipe_objects s)
        (Recipe_next_id s) (recipe_tags s) a
  end.

Definition set_recipes (m : gmap Z Recipe) (n : Z) (s : Store) : Store :=
  mkStore (Tag_objects s) (Ingredient_objects s) m n
    (recipe_tags s) (recipe_ingredient s).

(** ** Store operations that may raise *)

Inductive exn :=
  | MultipleObjectsReturned
  | IntegrityError
  | FieldError
  | TypeError
  | ValueError
  | OtherError (name : string).

#[global] Instance exn_eq_dec : EqDecision exn.
Proof. solve_decision. Defined.

(** Every write is committed as it is made, so an exception leaves the
    store as the writes before it made it. *)
Inductive outcome (A : Type) :=
  | Ok (a : A) (s : Store)
  | Raise (e : exn) (s : Store).
Arguments Ok {A} a s.
Arguments Raise {A} e s.

Definition M (A : Type) : Type := Store → outcome A.

Definition final_state {A} (o : outcome A) : Store :=
  match o with
  | Ok _ s => s
  | Raise _ s => s
  end.

#[global] Instance M_ret : MRet M := λ A a s, Ok a s.
#[global] Instance M_bind : MBind M := λ A B f m s,
  match m s with
  | Ok a s' => f a s'
  | Raise e s' => Raise e s'
  end.

Definition raise {A} (e : exn) : M A := λ s, Raise e s.

(** An exception raised before the store is reached. *)
Definition lift {A} (x : exn + A) : M A := λ s,
  match x with
  | inl e => Raise e s
  | inr a => Ok a s
  end.

(** ** What the models and the database decide

    [core/models.py] and the database behind it are not among the
    sources.  What the serializers' calls need of them is taken as a
    parameter, and every statement below holds whatever it is:
    - [default_of c]: the value of column [c] of a [Recipe] built
      without that keyword;
    - [db_error obj]: the exception that writing the recipe object [obj]
      raises, if any: a column that may not be empty, a value that is
      out of range or cannot be converted, an upload that cannot be
      stored;
    - [db_value c x]: what the database keeps for the value [x] written
      to column [c]: a decimal rounded to the places of the column, an
      upload under the name the storage gave it;
    - [name_error k n]: the exception that writing a tag ([k = Tags]) or
      an ingredient of name [n] raises, if any;
    - [int_of_str]: the integer a string stands for, if any, for a key
      given as a string. *)
Record Backend := mkBackend {
  default_of : string → scalar;
  db_error : dict value → option exn;
  db_value : string → value → scalar;
  name_error : related → string → option exn;
  int_of_str : string → option Z;
}.

(** *** The model managers: [Tag.objects], [Ingredient.objects] *)

(** The keyword arguments of a lookup on a [Named] model, besides [user]:
    an [id] and a [name] filter, the name compared as the string the
    value stands for.  Anything else is not a field of the model, or not
    a value the lookup can use. *)
Fixpoint parse_kwargs (kw : dict scalar) : option (option Z * option string) :=
  match kw with
  | [] => Some (None, None)
  | (k, v) :: kw' =>
      q ← parse_kwargs kw';
      if decide (k = "id") then
        match v with Int i => Some (Some i, q.2) | _ => None end
      else if decide (k = "name") then
        match v with
        | Str n => Some (q.1, Some n)
        | Int i => Some (q.1, Some (pretty i))
        | Null => None
        end
      else None
  end.

(** A keyword argument the lookup takes, [name = None] included. *)
Definition known_kwarg (kv : string * scalar) : bool :=
  if decide (kv.1 = "name") then true
  else if decide (kv.1 = "id") then
    match kv.2 with Int _ => true | _ => false end
  else false.

(** The exception of a lookup that cannot be made: with a [None] for the
    name no row is found and none can be written, the name being
    required; any other keyword is refused as it stands. *)
Definition lookup_error (kw : dict scalar) : exn :=
  if forallb known_kwarg kw then IntegrityError else FieldError.

Definition matching (u : Z) (q : option Z * option string)
    (kv : Z * Named) : Prop :=
  row_user kv.2 = u ∧
  from_option (λ i, kv.1 = i) True q.1 ∧
  from_option (λ n, row_name kv.2 = n) True q.2.

#[global] Instance matching_dec u q kv : Decision (matching u q kv).
Proof. unfold matching. destruct q as [[i|] [n|]]; simpl; apply _. Defined.

(** [Model.objects.filter(user=u, **kw)] *)
Definition candidates (u : Z) (q : option Z * option string)
    (t : Table) : list (Z * Named) :=
  map_to_list (filter (matching u q) (rows t)).

(** [Model.objects.create(user=u, **kw)]: the key is the given [id] or the
    next value of the sequence; a key already in the table violates the
    primary-key constraint. *)
Definition objects_create (db : Backend) (k : related) (u : Z)
    (q : option Z * option string) : M Z := λ s,
  let t := manager k s in
  let pk := default (next_id t) q.1 in
  let next := if q.1 is Some _ then next_id t else next_id t + 1 in
  match name_error db k (default "" q.2) with
  | Some e => Raise e s
  | None =>
      match rows t !! pk with
      | Some _ => Raise IntegrityError (set_manager k (mkTable (rows t) next) s)
      | None =>
          Ok pk (set_manager k
                   (mkTable (<[pk := mkNamed u (default "" q.2)]> (rows t)) next)
                   s)
      end
  end.

(** [Model.objects.get_or_create(user=u, **kw)]: the row's key and whether
    it was created. *)
Definition get_or_create (db : Backend) (k : related) (u : Z)
    (kw : dict scalar) : M (Z * bool) := λ s,
  match parse_kwargs kw with
  | None => Raise (lookup_error kw) s
  | Some q =>
      match candidates u q (manager k s) with
      | [] => (pk ← objects_create db k u q; mret (pk, true)) s
      | [(pk, _)] => Ok (pk, false) s
      | _ => Raise MultipleObjectsReturned s
      end
  end.

(** [recipe.<relation>.add(obj)] *)
Definition add (k : related) (recipe pk : Z) : M () := λ s,
  Ok () (set_through k ({[ (recipe, pk) ]} ∪ through k s) s).

(** [recipe.<relation>.clear()] *)
Definition clear (k : related) (recipe : Z) : M () := λ s,
  Ok () (set_through k (filter (λ p, p.1 ≠ recipe) (through k s)) s).

(** *** The [Recipe] model *)

(** The columns of a recipe besides its key and its owner. *)
Definition recipe_columns : list string :=
  ["title"; "time_minutes"; "price"; "link"; "description"; "image"].

(** A column of a stored recipe. *)
Definition getattr (r : Recipe) (attr : string) : scalar :=
  if decide (attr = "user") then Int (recipe_user r)
  else if decide (attr = "title") then title r
  else if decide (attr = "time_minutes") then time_minutes r
  else if decide (attr = "price") then price r
  else if decide (attr = "link") then link r
  else if decide (attr = "description") then description r
  else if decide (attr = "image") then image r
  else Null.

(** A recipe object in memory: the values of its attributes, by name.
    The key is the attribute [id], the owner the attribute [user_id]; a
    user object is written as its key. *)
Definition attr (obj : dict value) (name : string) : value :=
  default (Scalar Null) (get name obj).

(** The object the manager builds from a stored row. *)
Definition load (instance : Z * Recipe) : dict value :=
  ("id", Scalar (Int instance.1)) ::
  ("user_id", Scalar (Int (recipe_user instance.2))) ::
  ((λ c, (c, Scalar (getattr instance.2 c))) <$> recipe_columns).

(** [Recipe()]: no key, no owner, every column at its default. *)
Definition blank (db : Backend) : dict value :=
  ("id", Scalar Null) :: ("user_id", Scalar Null) ::
  ((λ c, (c, Scalar (default_of db c))) <$> recipe_columns).

(** [setattr(instance, name, value)] on a recipe object.  [pk] stands
    for [id]; [user] takes a user object or [None] and nothing else, and
    sets [user_id]; the two relations cannot be assigned; any other name
    is an attribute of the Python object, a column or not. *)
Definition setattr (obj : dict value) (name : string) (v : value)
    : exn + dict value :=
  if decide (name = "pk") then inr (set_item "id" v obj)
  else if decide (name = "user") then
    match v with
    | Scalar (Int _) | Scalar Null => inr (set_item "user_id" v obj)
    | _ => inl ValueError
    end
  else if decide (name ∈ ["tags"; "ingredient"]) then inl TypeError
  else inr (set_item name v obj).

(** [for attr, value in items: setattr(instance, attr, value)] *)
Fixpoint setattr_each (obj : dict value) (items : dict value)
    : exn + dict value :=
  match items with
  | [] => inr obj
  | (name, v) :: items' =>
      match setattr obj name v with
      | inl e => inl e
      | inr obj' => setattr_each obj' items'
      end
  end.

(** The keywords [Recipe(...)] takes: its fields, and [pk]. *)
Definition recipe_keywords : list string :=
  ["id"; "pk"; "user"; "user_id"] ++ recipe_columns.

(** [Recipe] built from keyword arguments.  A [user] that is no user
    object is refused first, then a keyword that is no field; [user_id]
    and [pk] are applied after the fields, so they win over [user] and
    [id]. *)
Definition Recipe_init (db : Backend) (kwargs : dict value)
    : exn + dict value :=
  match setattr (blank db) "user" (default (Scalar Null) (get "user" kwargs)) with
  | inl e => inl e
  | inr _ =>
      if decide (Forall (λ k, k ∈ recipe_keywords) kwargs.*1) then
        setattr_each (blank db)
          (filter (λ kv, kv.1 ∉ ["user_id"; "pk"]) kwargs ++
           filter (λ kv, kv.1 ∈ ["user_id"; "pk"]) kwargs)
      else inl TypeError
  end.

(** The key a value of [id] or [user_id] stands for: [None] for no key,
    an integer for itself, a string for the integer it reads as. *)
Definition as_key (db : Backend) (v : value) : exn + option Z :=
  match v with
  | Scalar Null => inr None
  | Scalar (Int n) => inr (Some n)
  | Scalar (Str s) =>
      match int_of_str db s with
      | Some n => inr (Some n)
      | None => inl ValueError
      end
  | Items _ => inl TypeError
  end.

(** The row the database keeps for an object of owner [u]. *)
Definition row_of (db : Backend) (u : Z) (obj : dict value) : Recipe :=
  mkRecipe u
    (db_value db "title" (attr obj "title"))
    (db_value db "time_minutes" (attr obj "time_minutes"))
    (db_value db "price" (attr obj "price"))
    (db_value db "link" (attr obj "link"))
    (db_value db "description" (attr obj "description"))
    (db_value db "image" (attr obj "image")).

(** The object after a save: its image is the stored one. *)
Definition committed (db : Backend) (obj : dict value) : dict value :=
  set_item "image" (Scalar (db_value db "image" (attr obj "image"))) obj.

(** [instance.save()], and [instance.save(force_insert=True)] as
    [Recipe.objects.create] calls it: the key the object is stored under,
    and the object as the save leaves it.  Nothing is written when the
    write is refused.  An object with a key replaces the row of that key
    or, there being none, is inserted under it ([force_insert] refuses a
    key in use); an object without a key is inserted under the next
    value of the sequence, which becomes its [id].  The owner may not be
    empty. *)
Definition save (db : Backend) (force_insert : bool) (obj : dict value)
    : M (Z * dict value) := λ s,
  match db_error db obj with
  | Some e => Raise e s
  | None =>
      match as_key db (attr obj "id") with
      | inl e => Raise e s
      | inr key =>
          match as_key db (attr obj "user_id") with
          | inl e => Raise e s
          | inr None => Raise IntegrityError s
          | inr (Some u) =>
              match key with
              | Some pk =>
                  if force_insert && bool_decide (is_Some (Recipe_objects s !! pk))
                  then Raise IntegrityError s
                  else
                    Ok (pk, committed db obj)
                       (set_recipes (<[pk := row_of db u obj]> (Recipe_objects s))
                          (Recipe_next_id s) s)
              | None =>
                  let pk := Recipe_next_id s in
                  match Recipe_objects s !! pk with
                  | Some _ =>
                      Raise IntegrityError
                        (set_recipes (Recipe_objects s) (pk + 1) s)
                  | None =>
                      Ok (pk, set_item "id" (Scalar (Int pk)) (committed db obj))
                         (set_recipes (<[pk := row_of db u obj]> (Recipe_objects s))
                            (pk + 1) s)
                  end
              end
          end
      end
  end.

(** [Recipe.objects.create] with keyword arguments. *)
Definition Recipe_objects_create (db : Backend) (kwargs : dict value)
    : M (Z * dict value) :=
  obj ← lift (Recipe_init db kwargs);
  save db true obj.

(** ** [recipe/serializers.py] *)

(** *** Field declarations *)

Record Meta := mkMeta {
  fields : list string;
  read_only_fields : list string;
}.

(** A serializer class: its [Meta] and the nested serializers it declares
    (all of them with [many = True, required = False]). *)
Record Serializer := mkSerializer {
  meta : Meta;
  declared : list (string * Meta);
}.

Definition IngredientSerializer : Serializer :=
  mkSerializer (mkMeta ["id"; "name"] ["id"]) [].

Definition TagSerializer : Serializer :=
  mkSerializer (mkMeta ["id"; "name"] ["id"]) [].

Definition RecipeSerializer : Serializer :=
  mkSerializer
    (mkMeta ["id"; "title"; "time_minutes"; "price"; "link"; "tags";
             "ingredient"]
            ["id"])
    [("tags", meta TagSerializer); ("ingredient", meta IngredientSerializer)].

(** [class Meta(RecipeSerializer.Meta)] with
    [fields = RecipeSerializer.Meta.fields + ['description']]. *)
Definition RecipeDetailSerializer : Serializer :=
  mkSerializer
    (mkMeta (fields (meta RecipeSerializer) ++ ["description"])
            (read_only_fields (meta RecipeSerializer)))
    (declared RecipeSerializer).

(** *** [RecipeSerializer] methods

    [auth_user] is [self.context['request'].user].  The [instance] given
    to [update] is a recipe as the view loaded it: its key with its row;
    the recipe [create] and [update] return is the key with the object
    in memory. *)

(** The body of [for obj in objs: <get_or_create>; recipe.<relation>.add]. *)
Fixpoint get_or_create_each (db : Backend) (k : related) (auth_user : Z)
    (objs : list (dict scalar)) (recipe : Z) : M () :=
  match objs with
  | [] => mret ()
  | obj :: objs' =>
      '(pk, created) ← get_or_create db k auth_user obj;
      add k recipe pk;;
      get_or_create_each db k auth_user objs' recipe
  end.

(** Iterating a popped value: a list of objects gives its elements, an
    empty string gives nothing, and anything else (not iterable, or
    elements that are not mappings) raises before any write. *)
Definition for_each_in (objs : value) (body : list (dict scalar) → M ()) : M () :=
  match objs with
  | Items l => body l
  | Scalar (Str "") => mret ()
  | Scalar _ => raise TypeError
  end.

(** The source returns [recipe] from this helper and nothing from the
    next; no caller uses either result. *)
Definition _get_or_create_ingredients (db : Backend) (auth_user : Z)
    (ingredients : value) (recipe : Z) : M () :=
  for_each_in ingredients
    (λ l, get_or_create_each db Ingredients auth_user l recipe).

Definition _get_or_create_tags (db : Backend) (auth_user : Z) (tags : value)
    (recipe : Z) : M () :=
  for_each_in tags (λ l, get_or_create_each db Tags auth_user l recipe).

Definition create (db : Backend) (auth_user : Z) (validated_data : dict value)
    : M (Z * dict value) :=
  let '(tags, validated_data) := pop "tags" (Items []) validated_data in
  let '(ingredient, validated_data) :=
    pop "ingredient" (Items []) validated_data in
  recipe ← Recipe_objects_create db validated_data;
  _get_or_create_tags db auth_user tags recipe.1;;
  _get_or_create_ingredients db auth_user ingredient recipe.1;;
  mret recipe.

(** [x is not None] *)
Definition is_not_None (x : value) : bool :=
  match x with
  | Scalar Null => false
  | _ => true
  end.

Definition update (db : Backend) (auth_user : Z) (instance : Z * Recipe)
    (validated_data : dict value) : M (Z * dict value) :=
  let '(tags, validated_data) := pop "tags" (Items []) validated_data in
  let '(ingredient, validated_data) :=
    pop "ingredient" (Items []) validated_data in
  (if is_not_None tags then
     clear Tags instance.1;;
     _get_or_create_tags db auth_user tags instance.1
   else mret ());;
  (if is_not_None ingredient then
     clear Ingredients instance.1;;
     _get_or_create_ingredients db auth_user ingredient instance.1
   else mret ());;
  obj ← lift (setattr_each (load instance) validated_data);
  save db false obj.

(** ** What the framework does around the serializer classes

    The serializer classes above only declare fields; turning a request
    payload into [validated_data] and an object into its wire form is the
    framework's work, driven by those declarations.  What it needs from
    the models ([core.models], the field types and which fields may be
    left out) is taken as parameters:
    - [clean f x]: the validated value of field [f] for input [x], or
      [None] when the input is not valid for that field;
    - [required f]: whether field [f] has to be given.
    A partial validation (PATCH) does not enforce required fields: a
    field left out is skipped.  Nested serializers take the setting from
    the serializer they are declared in. *)

(** Fields a client may set: the declared fields that are not read-only. *)
Definition writable_fields (m : Meta) : list string :=
  filter (λ f, f ∉ read_only_fields m) (fields m).

Section validation.
Variable db : Backend.
Variable clean : string → scalar → option scalar.
Variable required : string → bool.

(** Validation of one object by a serializer without nested fields:
    each writable field is read from the payload by its name; keys of
    the payload that are not writable fields are never looked at. *)
Fixpoint validate_fields (partial : bool) (fs : list string)
    (data : dict scalar) : option (dict scalar) :=
  match fs with
  | [] => Some []
  | f :: fs' =>
      match get f data with
      | None =>
          if partial then validate_fields partial fs' data
          else if required f then None
          else validate_fields partial fs' data
      | Some x =>
          x' ← clean f x;
          rest ← validate_fields partial fs' data;
          Some ((f, x') :: rest)
      end
  end.

Definition validate_object (partial : bool) (m : Meta)
    (data : dict scalar) : option (dict scalar) :=
  validate_fields partial (writable_fields m) data.

(** Validation by a serializer with nested [many = True,
    required = False] fields. *)
Fixpoint validate_nesting (partial : bool) (nested : list (string * Meta))
    (fs : list string) (data : dict value) : option (dict value) :=
  match fs with
  | [] => Some []
  | f :: fs' =>
      match get f nested with
      | Some child =>
          match get f data with
          | None => validate_nesting partial nested fs' data
          | Some (Items l) =>
              l' ← mapM (validate_object partial child) l;
              rest ← validate_nesting partial nested fs' data;
              Some ((f, Items l') :: rest)
          | Some (Scalar _) => None
          end
      | None =>
          match get f data with
          | None =>
              if partial then validate_nesting partial nested fs' data
              else if required f then None
              else validate_nesting partial nested fs' data
          | Some (Scalar x) =>
              x' ← clean f x;
              rest ← validate_nesting partial nested fs' data;
              Some ((f, Scalar x') :: rest)
          | Some (Items _) => None
          end
      end
  end.

(** [serializer.is_valid()], giving [serializer.validated_data]. *)
Definition to_internal_value (partial : bool) (ser : Serializer)
    (data : dict value) : option (dict value) :=
  validate_nesting partial (declared ser) (writable_fields (meta ser)) data.

(** [serializer = Serializer(instance, data=data, partial=partial)],
    [serializer.is_valid()], [serializer.save()]: [None] when the
    payload is not valid, else what [update] did. *)
Definition save_update (ser : Serializer) (partial : bool) (auth_user : Z)
    (instance : Z * Recipe) (data : dict value) (s : Store)
    : option (outcome (Z * dict value)) :=
  validated_data ← to_internal_value partial ser data;
  Some (update db auth_user instance validated_data s).

(** [serializer.save] with keyword arguments, on a new object: the
    keyword arguments are merged over [validated_data] before [create]
    runs. *)
Definition save_create (ser : Serializer) (auth_user : Z)
    (kwargs : dict value) (data : dict value) (s : Store)
    : option (outcome (Z * dict value)) :=
  validated_data ← to_internal_value false ser data;
  Some (create db auth_user
          (foldl (λ d kv, set_item kv.1 kv.2 d) validated_data kwargs) s).
End validation.

(** The relation of the model behind a nested field name: [recipe.tags],
    [recipe.ingredient]. *)
Definition related_of_field (f : string) : option related :=
  if decide (f = "tags") then Some Tags
  else if decide (f = "ingredient") then Some Ingredients
  else None.

(** The rows of relation [k] associated with a recipe. *)
Definition related_rows (k : related) (recipe : Z) (s : Store)
    : list (Z * Named) :=
  map_to_list (filter (λ kv, (recipe, kv.1) ∈ through k s) (rows (manager k s))).

(** Wire form of a [Tag] or [Ingredient]. *)
Definition represent_object (m : Meta) (obj : Z * Named) : dict scalar :=
  (λ f, (f, if decide (f = "id") then Int obj.1
            else if decide (f = "name") then Str (row_name obj.2)
            else Null)) <$> fields m.

(** Wire form of a recipe: one key per declared field, in order. *)
Definition to_representation (ser : Serializer) (instance : Z * Recipe)
    (s : Store) : dict value :=
  (λ f, (f, match get f (declared ser) with
            | Some child =>
                Items (represent_object child <$>
                         from_option (λ k, related_rows k instance.1 s) []
                                     (related_of_field f))
            | None =>
                if decide (f = "id") then Scalar (Int instance.1)
                else Scalar (getattr instance.2 f)
            end)) <$> fields (meta ser).

(** ** The API layer

    [recipe/views.py] is not among the sources; the operations below
    follow section 4.2 of the specification. *)

(** Modelled from the spec: the status codes of section 6 (500 stands for
    an exception that reaches the framework). *)
Inductive status :=
  | HTTP_200_OK
  | HTTP_201_CREATED
  | HTTP_204_NO_CONTENT
  | HTTP_400_BAD_REQUEST
  | HTTP_404_NOT_FOUND
  | HTTP_500_INTERNAL_SERVER_ERROR.

(** Modelled from the spec: the query parameters of the recipe list
    ([recipe/views.py] is not under [src/]); each filter, when given, is
    the list of ids its comma-separated value stands for. *)
Record RecipeQuery := mkRecipeQuery {
  q_tags : option (list Z);
  q_ingredients : option (list Z);
}.

(** Modelled from the spec: restricting a queryset of recipes to those
    associated through [a] with one of [ids].  As a join with the
    association rows it yields a recipe once per matching association. *)
Definition join_in (a : gset (Z * Z)) (ids : list Z)
    (qs : list (Z * Recipe)) : list (Z * Recipe) :=
  r ← qs;
  p ← elements a;
  if decide (p.1 = r.1 ∧ p.2 ∈ ids) then [r] else [].

(** Modelled from the spec: the default order of the recipe list,
    descending id. *)
Definition id_ge (r1 r2 : Z * Recipe) : Prop := r2.1 ≤ r1.1.

#[global] Instance id_ge_dec r1 r2 : Decision (id_ge r1 r2).
Proof. unfold id_ge. apply _. Defined.

(** Modelled from the spec: the recipe list of user [u] (section 4.2):
    both filters applied when given, scoped to the requesting user,
    deduplicated, ordered by descending id. *)
Definition recipe_queryset (u : Z) (q : RecipeQuery) (s : Store)
    : list (Z * Recipe) :=
  let qs := map_to_list (Recipe_objects s) in
  let qs := from_option (λ ids, join_in (recipe_tags s) ids qs) qs (q_tags q) in
  let qs :=
    from_option (λ ids, join_in (recipe_ingredient s) ids qs) qs
                (q_ingredients q) in
  let qs := filter (λ r, recipe_user r.2 = u) qs in
  merge_sort id_ge (remove_dups qs).

(** Modelled from the spec: [pk] is the id of a recipe owned by [u]. *)
Definition owned_recipe (u : Z) (recipes : gmap Z Recipe) (pk : Z) : Prop :=
  ∃ r, recipes !! pk = Some r ∧ recipe_user r = u.

#[global] Instance owned_recipe_dec u recipes pk :
  Decision (owned_recipe u recipes pk).
Proof.
  unfold owned_recipe. destruct (recipes !! pk) as [r|] eqn:E.
  - destruct (decide (recipe_user r = u)) as [Hu|Hu].
    + left. eauto.
    + right. intros (r' & Hr & Hu'). congruence.
  - right. intros (r' & Hr & _). congruence.
Defined.

(** Modelled from the spec: restricting a queryset of tags or ingredients
    to those associated with at least one recipe owned by [u]: a join with
    the association rows and the recipes, one result per association. *)
Definition join_assigned (u : Z) (a : gset (Z * Z)) (recipes : gmap Z Recipe)
    (qs : list (Z * Named)) : list (Z * Named) :=
  t ← qs;
  p ← elements a;
  if decide (p.2 = t.1 ∧ owned_recipe u recipes p.1) then [t] else [].

(** Modelled from the spec: the default order of the tag and ingredient
    lists, descending name. *)
Definition name_ge (t1 t2 : Z * Named) : Prop :=
  String.leb (row_name t2.2) (row_name t1.2) = true.

#[global] Instance name_ge_dec t1 t2 : Decision (name_ge t1 t2).
Proof. unfold name_ge. apply _. Defined.

(** Modelled from the spec: the tag or ingredient list of user [u]
    (section 4.2): scoped to the requesting user, with [assigned_only]
    restricted to those in use, deduplicated, ordered by descending
    name. *)
Definition named_queryset (k : related) (u : Z) (assigned_only : bool)
    (s : Store) : list (Z * Named) :=
  let qs := map_to_list (rows (manager k s)) in
  let qs := filter (λ t, row_user t.2 = u) qs in
  let qs :=
    if assigned_only then join_assigned u (through k s) (Recipe_objects s) qs
    else qs in
  merge_sort name_ge (remove_dups qs).

(** Modelled from the spec: looking a recipe id up in the requesting
    user's own rows; an id that does not exist or belongs to another user
    is not found. *)
Definition get_recipe (u pk : Z) (s : Store) : option Recipe :=
  filter (λ kv, recipe_user kv.2 = u) (Recipe_objects s) !! pk.

(** Modelled from the spec: the same lookup for a tag or ingredient id. *)
Definition get_named (k : related) (u pk : Z) (s : Store) : option Named :=
  filter (λ kv, row_user kv.2 = u) (rows (manager k s)) !! pk.

(** The serializer of the tag and of the ingredient endpoints. *)
Definition named_serializer (k : related) : Serializer :=
  match k with
  | Tags => TagSerializer
  | Ingredients => IngredientSerializer
  end.

(** Modelled from the spec: the list operation on recipes. *)
Definition recipe_list (u : Z) (q : RecipeQuery) (s : Store)
    : status * list (dict value) :=
  (HTTP_200_OK,
   (λ r, to_representation RecipeSerializer r s) <$> recipe_queryset u q s).

(** Modelled from the spec: the retrieve operation on recipes. *)
Definition recipe_retrieve (u pk : Z) (s : Store)
    : status * option (dict value) :=
  match get_recipe u pk s with
  | None => (HTTP_404_NOT_FOUND, None)
  | Some r =>
      (HTTP_200_OK, Some (to_representation RecipeDetailSerializer (pk, r) s))
  end.

(** Modelled from the spec: the delete operation on recipes; the
    association rows of the recipe go with it. *)
Definition recipe_destroy (u pk : Z) (s : Store) : status * Store :=
  match get_recipe u pk s with
  | None => (HTTP_404_NOT_FOUND, s)
  | Some _ =>
      (HTTP_204_NO_CONTENT,
       mkStore (Tag_objects s) (Ingredient_objects s)
         (delete pk (Recipe_objects s)) (Recipe_next_id s)
         (filter (λ p, p.1 ≠ pk) (recipe_tags s))
         (filter (λ p, p.1 ≠ pk) (recipe_ingredient s)))
  end.

(** Modelled from the spec: the list operation on tags ([k = Tags]) and
    ingredients ([k = Ingredients]). *)
Definition named_list (k : related) (u : Z) (assigned_only : bool)
    (s : Store) : status * list (dict scalar) :=
  (HTTP_200_OK,
   represent_object (meta (named_serializer k)) <$>
     named_queryset k u assigned_only s).

(** Modelled from the spec: the retrieve operation on tags and
    ingredients. *)
Definition named_retrieve (k : related) (u pk : Z) (s : Store)
    : status * option (dict scalar) :=
  match get_named k u pk s with
  | None => (HTTP_404_NOT_FOUND, None)
  | Some t =>
      (HTTP_200_OK, Some (represent_object (meta (named_serializer k)) (pk, t)))
  end.

(** Modelled from the spec: the delete operation on tags and ingredients;
    the association rows of the entity go with it. *)
Definition named_destroy (k : related) (u pk : Z) (s : Store)
    : status * Store :=
  match get_named k u pk s with
  | None => (HTTP_404_NOT_FOUND, s)
  | Some _ =>
      (HTTP_204_NO_CONTENT,
       set_through k (filter (λ p, p.2 ≠ pk) (through k s))
         (set_manager k (mkTable (delete pk (rows (manager k s)))
                           (next_id (manager k s))) s))
  end.

Section views.
Variable db : Backend.
Variable clean : string → scalar → option scalar.
Variable required : string → bool.

(** Modelled from the spec: the create operation on recipes; the
    serializer is saved with the requesting user as owner. *)
Definition recipe_create (u : Z) (data : dict value) (s : Store)
    : status * Store :=
  match save_create db clean required RecipeDetailSerializer u
          [("user", Scalar (Int u))] data s with
  | None => (HTTP_400_BAD_REQUEST, s)
  | Some (Ok _ s') => (HTTP_201_CREATED, s')
  | Some (Raise _ s') => (HTTP_500_INTERNAL_SERVER_ERROR, s')
  end.

(** Modelled from the spec: the update operation on recipes, partial
    (PATCH) or full (PUT), through [RecipeSerializer.update]. *)
Definition recipe_update (partial : bool) (u pk : Z) (data : dict value)
    (s : Store) : status * Store :=
  match get_recipe u pk s with
  | None => (HTTP_404_NOT_FOUND, s)
  | Some r =>
      match save_update db clean required RecipeDetailSerializer partial u
              (pk, r) data s with
      | None => (HTTP_400_BAD_REQUEST, s)
      | Some (Ok _ s') => (HTTP_200_OK, s')
      | Some (Raise _ s') => (HTTP_500_INTERNAL_SERVER_ERROR, s')
      end
  end.

(** Modelled from the spec: the update operation on tags and
    ingredients: the validated name replaces the stored one. *)
Definition named_update (k : related) (partial : bool) (u pk : Z)
    (data : dict scalar) (s : Store) : status * Store :=
  match get_named k u pk s with
  | None => (HTTP_404_NOT_FOUND, s)
  | Some t =>
      match validate_object clean required partial
              (meta (named_serializer k)) data with
      | None => (HTTP_400_BAD_REQUEST, s)
      | Some validated_data =>
          let t' :=
            match get "name" validated_data with
            | Some (Str n) => mkNamed (row_user t) n
            | _ => t
            end in
          (HTTP_200_OK,
           set_manager k (mkTable (<[pk := t']> (rows (manager k s)))
                            (next_id (manager k s))) s)
      end
  end.
End views.

(** ** Properties named in the statements below *)

(** A row is what the keyword arguments [obj] of a lookup for user [u]
    select. *)
Definition matches_item (u : Z) (obj : dict scalar) (kv : Z * Named) : Prop :=
  ∃ q, parse_kwargs obj = Some q ∧ matching u q kv.

(** What the nested get-or-create of the objects [objs] of relation [k]
    may do to the rows of the store [s], [s'] being the store it leaves:
    stored rows stay as they are, and a row is added only for an object
    that no stored row matched. *)
Definition reuses_existing (k : related) (u : Z) (objs : list (dict scalar))
    (s s' : Store) : Prop :=
  rows (manager k s) ⊆ rows (manager k s') ∧
  ∀ pk row,
    rows (manager k s') !! pk = Some row →
    rows (manager k s) !! pk = None →
    ∃ obj, obj ∈ objs ∧ matches_item u obj (pk, row) ∧
      ∀ pk0 row0, rows (manager k s) !! pk0 = Some row0 →
                  ¬ matches_item u obj (pk0, row0).

(** Every row of [s] that matches one of the objects is associated with
    the recipe in [s']. *)
Definition associates_existing (k : related) (u : Z)
    (objs : list (dict scalar)) (s : Store) (recipe : Z) (s' : Store) : Prop :=
  ∀ obj pk0 row0,
    obj ∈ objs → rows (manager k s) !! pk0 = Some row0 →
    matches_item u obj (pk0, row0) → (recipe, pk0) ∈ through k s'.

(** A table is well kept when no user has two rows of one name and the
    key sequence is ahead of every key in use. *)
Definition unique_names (t : Table) : Prop :=
  ∀ pk1 pk2 r1 r2,
    rows t !! pk1 = Some r1 → rows t !! pk2 = Some r2 →
    row_user r1 = row_user r2 → row_name r1 = row_name r2 → pk1 = pk2.

Definition sequence_ahead (t : Table) : Prop :=
  ∀ pk, is_Some (rows t !! pk) → pk < next_id t.

Definition well_kept (t : Table) : Prop := unique_names t ∧ sequence_ahead t.

(** Every association joins a stored recipe with a stored tag or
    ingredient of the recipe's owner. *)
Definition same_owner (s : Store) : Prop :=
  ∀ k rpk pk, (rpk, pk) ∈ through k s →
    ∃ r t, Recipe_objects s !! rpk = Some r ∧
           rows (manager k s) !! pk = Some t ∧
           row_user t = recipe_user r.

(** The lookup of a nested object is by the requesting user and a name:
    its keyword arguments are a name and nothing else. *)
Definition looked_up_by_name (obj : dict scalar) : Prop :=
  ∃ n, parse_kwargs obj = Some (None, Some n).

(** The payload key of a relation. *)
Definition field_of (k : related) : string :=
  match k with
  | Tags => "tags"
  | Ingredients => "ingredient"
  end.


(** [_get_or_create_tags] and [_get_or_create_ingredients] as one
    function of the relation. *)
Definition nested_get_or_create (db : Backend) (k : related) (u : Z)
    (objs : value) (recipe : Z) : M () :=
  for_each_in objs (λ l, get_or_create_each db k u l recipe).

(** The [if objs is not None: clear; get-or-create] block of [update]. *)
Definition replace_related (db : Backend) (k : related) (u : Z)
    (objs : value) (recipe : Z) : M () :=
  if is_not_None objs then
    clear k recipe;; nested_get_or_create db k u objs recipe
  else mret ().

(** The assignments and the save that close [update]. *)
Definition assign_and_save (db : Backend) (instance : Z * Recipe)
    (validated_data : dict value) : M (Z * dict value) :=
  obj ← lift (setattr_each (load instance) validated_data);
  save db false obj.

(** ** Stores and payloads of the test suite *)

(** [create_recipe(user, title=...)] of the tests: the default columns. *)
Definition sample_recipe (user : Z) (title : string) : Recipe :=
  mkRecipe user (Str title) (Int 10) (Str "5.50")
    (Str "http://example.com/recipe") (Str "Sample recipe description") Null.

Definition table (l : list (Z * Named)) (next : Z) : Table :=
  mkTable (list_to_map l) next.

(** [test_creating_recipe_with_existing_tag]: user 1 owns the tag 'Thai'. *)
Definition store_existing_tag : Store :=
  mkStore (table [(1, mkNamed 1 "Thai")] 2) (table [] 1) ∅ 1 ∅ ∅.

Definition data_existing_tag : dict value :=
  [("title", Scalar (Str "thai prawn curry"));
   ("time_minutes", Scalar (Int 30));
   ("price", Scalar (Str "10.00"));
   ("tags", Items [[("name", Str "Thai")]; [("name", Str "dinner")]]);
   ("user", Scalar (Int 1))].

(** [test_clear_recipe_tags], [test_clear_recipe_ingredients]: recipe 1 of
    user 1 carries the tag 'Dessert' and the ingredient 'Limes'. *)
Definition store_tagged_recipe : Store :=
  mkStore (table [(1, mkNamed 1 "Dessert")] 2) (table [(1, mkNamed 1 "Limes")] 2)
    {[ 1 := sample_recipe 1 "Sample recipe" ]} 2
    {[ (1, 1) ]} {[ (1, 1) ]}.

(** Two tags of one user with one name, rows the managers accept (as
    [Tag.objects.create] in the tests would write them). *)
Definition store_duplicate_tags : Store :=
  mkStore (table [(1, mkNamed 1 "Thai"); (2, mkNamed 1 "Thai");
                  (3, mkNamed 1 "Dessert")] 4)
    (table [] 1)
    {[ 1 := sample_recipe 1 "Sample recipe" ]} 2
    {[ (1, 3) ]} ∅.

(** A second user's recipe, tag and ingredient besides those of user 1
    ([test_recipe_list_limited_to_user], [test_tags_limited_to_user]). *)
Definition store_two_users : Store :=
  mkStore (table [(1, mkNamed 1 "Confort Food"); (2, mkNamed 2 "fruity")] 3)
    (table [(1, mkNamed 1 "salt"); (2, mkNamed 2 "Veggie")] 3)
    {[ 1 := sample_recipe 1 "Sample recipe"; 2 := sample_recipe 2 "Sample recipe" ]} 3
    {[ (1, 1); (2, 2) ]} {[ (1, 1); (2, 2) ]}.

(** Field validation that accepts every value, and a model whose
    [title], [time_minutes], [price] and [name] have to be given. *)
Definition accept_all (f : string) (x : scalar) : option scalar := Some x.

Definition model_required (f : string) : bool :=
  bool_decide (f ∈ ["title"; "time_minutes"; "price"; "name"]).

(** A database as the payloads of the tests need it: a text column left
    out is the empty string, any other column empty; a recipe without a
    title, a time or a price is refused; every other value is kept as it
    is written, and every name is taken. *)
Definition strict_columns : Backend :=
  mkBackend
    (λ c, if decide (c ∈ ["title"; "link"; "description"]) then Str "" else Null)
    (λ obj, if decide (Exists (λ c, attr obj c = Scalar Null)
                         ["title"; "time_minutes"; "price"])
            then Some IntegrityError else None)
    (λ c x, match x with Scalar v => v | Items _ => Null end)
    (λ k n, None)
    (λ n, None).

(** A create and an update that meet the two 'Thai' rows of
    [store_duplicate_tags] after their first writes. *)
Definition data_new_then_duplicate : dict value :=
  [("title", Scalar (Str "thai prawn curry"));
   ("time_minutes", Scalar (Int 30));
   ("price", Scalar (Str "10.00"));
   ("tags", Items [[("name", Str "dinner")]; [("name", Str "Thai")]]);
   ("user", Scalar (Int 1))].


(** ** Further definitions: columns, shapes of validated data, the image
    serializer and the helper of the tests *)

(** The attributes that say which row an object is and whose: what
    validated data never names, its keys being fields a client may
    set. *)
Definition identity_keys : list string := ["id"; "pk"; "user"; "user_id"].


(** A list of nested objects as validation hands them over when every
    object carries a name: each is [{'name': n}]. *)
Definition name_only (objs : list (dict scalar)) : Prop :=
  Forall (λ obj, ∃ n, obj = [("name", Str n)]) objs.


(** The database takes every name of the list. *)
Definition names_accepted (db : Backend) (k : related)
    (objs : list (dict scalar)) : Prop :=
  Forall (λ obj, ∃ n, obj = [("name", Str n)] ∧ name_error db k n = None) objs.

(** The same of the value of a relation key in validated data. *)
Definition names_accepted_or_absent (db : Backend) (k : related)
    (vd : dict value) : Prop :=
  ∃ objs, from_option id (Items []) (get (field_of k) vd) = Items objs ∧
          names_accepted db k objs.








(** * Proofs *)

(** ** The store accessors *)

Lemma manager_set_manager k t s : manager k (set_manager k t s) = t.
Proof. by destruct k. Qed.

Lemma manager_set_manager_ne k k' t s :
  k' ≠ k → manager k' (set_manager k t s) = manager k' s.
Proof. by destruct k, k'. Qed.

Lemma through_set_manager k k' t s :
  through k' (set_manager k t s) = through k' s.
Proof. by destruct k, k'. Qed.

Lemma recipes_set_manager k t s :
  Recipe_objects (set_manager k t s) = Recipe_objects s.
Proof. by destruct k. Qed.

Lemma through_set_through k a s : through k (set_through k a s) = a.
Proof. by destruct k. Qed.

Lemma through_set_through_ne k k' a s :
  k' ≠ k → through k' (set_through k a s) = through k' s.
Proof. by destruct k, k'. Qed.

Lemma manager_set_through k k' a s :
  manager k' (set_through k a s) = manager k' s.
Proof. by destruct k, k'. Qed.

Lemma recipes_set_through k a s :
  Recipe_objects (set_through k a s) = Recipe_objects s.
Proof. by destruct k. Qed.

Lemma bind_unfold {A B} (m : M A) (f : A → M B) s :
  (m ≫= f) s =
  match m s with
  | Ok a s' => f a s'
  | Raise e s' => Raise e s'
  end.
Proof. reflexivity. Qed.

(** ** Lookups *)

Lemma elem_of_candidates u q t pk row :
  (pk, row) ∈ candidates u q t ↔ rows t !! pk = Some row ∧ matching u q (pk, row).
Proof.
  unfold candidates. rewrite elem_of_map_to_list, map_lookup_filter_Some.
  reflexivity.
Qed.

Lemma elem_of_candidates_name u n t pk row :
  (pk, row) ∈ candidates u (None, Some n) t ↔
  rows t !! pk = Some row ∧ row_user row = u ∧ row_name row = n.
Proof.
  rewrite elem_of_candidates. unfold matching. simpl. naive_solver.
Qed.

Lemma candidates_nil u q t :
  candidates u q t = [] →
  ∀ pk row, rows t !! pk = Some row → ¬ matching u q (pk, row).
Proof.
  intros Hnil pk row Hrow Hm.
  assert (Hin : (pk, row) ∈ candidates u q t) by by apply elem_of_candidates.
  rewrite Hnil in Hin. by apply not_elem_of_nil in Hin.
Qed.

Lemma candidates_singleton u q t pk row :
  candidates u q t = [(pk, row)] →
  rows t !! pk = Some row ∧ matching u q (pk, row) ∧
  ∀ pk0 row0, rows t !! pk0 = Some row0 → matching u q (pk0, row0) → pk0 = pk.
Proof.
  intros Hc.
  assert (Hin : (pk, row) ∈ candidates u q t) by (rewrite Hc; apply list_elem_of_here).
  apply elem_of_candidates in Hin as [Hrow Hm]. split_and!; try done.
  intros pk0 row0 Hrow0 Hm0.
  assert (Hin0 : (pk0, row0) ∈ candidates u q t) by by apply elem_of_candidates.
  rewrite Hc in Hin0. apply list_elem_of_singleton in Hin0. congruence.
Qed.

(** The row a lookup creates is one the same lookup selects. *)
Lemma created_row_matches u q next :
  matching u q (default next q.1, mkNamed u (default "" q.2)).
Proof. unfold matching. destruct q as [[i|] [n|]]; simpl; done. Qed.

(** ** One [get_or_create] *)

Lemma objects_create_Ok db k u q s pk s' :
  objects_create db k u q s = Ok pk s' →
  pk = default (next_id (manager k s)) q.1 ∧
  rows (manager k s) !! pk = None ∧
  rows (manager k s') = <[pk := mkNamed u (default "" q.2)]> (rows (manager k s)) ∧
  (∀ k', through k' s' = through k' s) ∧
  Recipe_objects s' = Recipe_objects s ∧
  (∀ k', k' ≠ k → manager k' s' = manager k' s).
Proof.
  unfold objects_create. destruct (name_error db k _); [done|].
  destruct (rows (manager k s) !! default (next_id (manager k s)) q.1) eqn:E;
    intros [= <- <-]; split_and!; try done.
  - by rewrite manager_set_manager.
  - intros k'. apply through_set_manager.
  - apply recipes_set_manager.
  - intros k' Hk. by apply manager_set_manager_ne.
Qed.

Lemma objects_create_Raise db k u q s e s' :
  objects_create db k u q s = Raise e s' →
  rows (manager k s') = rows (manager k s) ∧
  (∀ k', through k' s' = through k' s) ∧
  Recipe_objects s' = Recipe_objects s ∧
  (∀ k', k' ≠ k → manager k' s' = manager k' s).
Proof.
  unfold objects_create.
  destruct (name_error db k _); [by intros [= <- <-]|].
  destruct (rows (manager k s) !! default (next_id (manager k s)) q.1) eqn:E;
    intros [= <- <-]; split_and!.
  - by rewrite manager_set_manager.
  - intros k'. apply through_set_manager.
  - apply recipes_set_manager.
  - intros k' Hk. by apply manager_set_manager_ne.
Qed.

(** A successful [get_or_create]: either exactly one stored row was
    selected and nothing was written, or none was and a row that the
    lookup selects was inserted under a key not in use. *)
Lemma get_or_create_Ok db k u kw s pk created s' :
  get_or_create db k u kw s = Ok (pk, created) s' →
  ∃ q, parse_kwargs kw = Some q ∧
    (∀ k', through k' s' = through k' s) ∧
    Recipe_objects s' = Recipe_objects s ∧
    (∀ k', k' ≠ k → manager k' s' = manager k' s) ∧
    if created then
      candidates u q (manager k s) = [] ∧
      rows (manager k s) !! pk = None ∧
      pk = default (next_id (manager k s)) q.1 ∧
      rows (manager k s') =
        <[pk := mkNamed u (default "" q.2)]> (rows (manager k s))
    else
      s' = s ∧ ∃ row, candidates u q (manager k s) = [(pk, row)].
Proof.
  unfold get_or_create. destruct (parse_kwargs kw) as [q|]; [|done].
  destruct (candidates u q (manager k s)) as [|[pk0 row0] [|? ?]] eqn:Hc.
  - rewrite bind_unfold.
    destruct (objects_create db k u q s) as [pk1 s1|] eqn:Hcr; [|done].
    intros [= <- <- <-]. apply objects_create_Ok in Hcr as (?&?&?&?&?&?).
    exists q. split_and!; done.
  - intros [= <- <- <-]. exists q. split_and!; try done. eauto.
  - done.
Qed.

(** Whatever its outcome, [get_or_create] leaves the stored rows, the
    associations, the recipes and the other table as they are. *)
Lemma get_or_create_frame db k u kw s :
  let s' := final_state (get_or_create db k u kw s) in
  rows (manager k s) ⊆ rows (manager k s') ∧
  (∀ k', through k' s' = through k' s) ∧
  Recipe_objects s' = Recipe_objects s ∧
  (∀ k', k' ≠ k → manager k' s' = manager k' s).
Proof.
  simpl. destruct (get_or_create db k u kw s) as [[pk created] s'|e s'] eqn:E; simpl.
  - apply get_or_create_Ok in E as (q & _ & Ht & Hr & Hm & Hc).
    split_and!; try done. destruct created.
    + destruct Hc as (_ & Hnone & _ & ->). by apply insert_subseteq.
    + by destruct Hc as [-> _].
  - revert E. unfold get_or_create. destruct (parse_kwargs kw) as [q|].
    + destruct (candidates u q (manager k s)) as [|[pk0 row0] [|? ?]].
      * rewrite bind_unfold.
        destruct (objects_create db k u q s) as [pk1 s1|e1 s1] eqn:Hcr; [done|].
        intros [= <- <-]. apply objects_create_Raise in Hcr as (->&?&?&?).
        done.
      * done.
      * by intros [= <- <-].
    + by intros [= <- <-].
Qed.

Lemma add_frame k r pk s :
  ∃ s', add k r pk s = Ok () s' ∧
    through k s' = {[ (r, pk) ]} ∪ through k s ∧
    (∀ k', k' ≠ k → through k' s' = through k' s) ∧
    (∀ k', manager k' s' = manager k' s) ∧
    Recipe_objects s' = Recipe_objects s.
Proof.
  eexists. split; [reflexivity|]. split_and!.
  - apply through_set_through.
  - intros k' Hk. by apply through_set_through_ne.
  - intros k'. apply manager_set_through.
  - apply recipes_set_through.
Qed.

Lemma clear_frame k r s :
  ∃ s', clear k r s = Ok () s' ∧
    through k s' = filter (λ p, p.1 ≠ r) (through k s) ∧
    (∀ k', k' ≠ k → through k' s' = through k' s) ∧
    (∀ k', manager k' s' = manager k' s) ∧
    Recipe_objects s' = Recipe_objects s.
Proof.
  eexists. split; [reflexivity|]. split_and!.
  - apply through_set_through.
  - intros k' Hk. by apply through_set_through_ne.
  - intros k'. apply manager_set_through.
  - apply recipes_set_through.
Qed.

(** ** The loop over the nested objects *)

Lemma get_or_create_each_cons db k u obj objs r s :
  get_or_create_each db k u (obj :: objs) r s =
  match get_or_create db k u obj s with
  | Ok (pk, _) s1 =>
      get_or_create_each db k u objs r
        (set_through k ({[ (r, pk) ]} ∪ through k s1) s1)
  | Raise e s1 => Raise e s1
  end.
Proof.
  simpl. rewrite bind_unfold.
  destruct (get_or_create db k u obj s) as [[pk created] s1|e s1]; reflexivity.
Qed.

Lemma get_or_create_each_post db k u r objs s :
  let o := get_or_create_each db k u objs r s in
  rows (manager k s) ⊆ rows (manager k (final_state o)) ∧
  through k s ⊆ through k (final_state o) ∧
  (∀ k', k' ≠ k →
     manager k' (final_state o) = manager k' s ∧
     through k' (final_state o) = through k' s) ∧
  Recipe_objects (final_state o) = Recipe_objects s ∧
  (∀ pk row,
     rows (manager k (final_state o)) !! pk = Some row →
     rows (manager k s) !! pk = None →
     ∃ obj, obj ∈ objs ∧ matches_item u obj (pk, row) ∧
       ∀ pk0 row0, rows (manager k s) !! pk0 = Some row0 →
                   ¬ matches_item u obj (pk0, row0)) ∧
  match o with
  | Ok _ s' =>
      ∀ obj pk0 row0,
        obj ∈ objs → rows (manager k s) !! pk0 = Some row0 →
        matches_item u obj (pk0, row0) → (r, pk0) ∈ through k s'
  | Raise _ _ => True
  end.
Proof.
  revert s. induction objs as [|obj objs IH]; intros s.
  - simpl. split_and!; try done.
    + intros pk row H1 H2. congruence.
    + intros obj pk0 row0 Hin. by apply not_elem_of_nil in Hin.
  - cbv zeta. rewrite get_or_create_each_cons.
    pose proof (get_or_create_frame db k u obj s) as Hfr. cbv zeta in Hfr.
    destruct (get_or_create db k u obj s) as [[pk created] s1|e s1] eqn:E;
      simpl in Hfr; destruct Hfr as (Hrows & Hthr & Hrec & Hman).
    + set (s2 := set_through k ({[(r, pk)]} ∪ through k s1) s1).
      specialize (IH s2). cbv zeta in IH.
      assert (Hm2 : ∀ k', manager k' s2 = manager k' s1)
        by (intros k'; apply manager_set_through).
      assert (Ht2 : through k s2 = {[(r, pk)]} ∪ through k s)
        by (unfold s2; rewrite through_set_through, Hthr; done).
      destruct IH as (IH1 & IH2 & IH3 & IH4 & IH5 & IH6).
      rewrite Hm2 in IH1, IH5. rewrite Ht2 in IH2.
      apply get_or_create_Ok in E as (q & Hq & _ & _ & _ & Hc).
      split_and!.
      * by etrans.
      * intros p Hp. apply IH2, elem_of_union_r. done.
      * intros k' Hk. destruct (IH3 k' Hk) as [-> ->]. rewrite Hm2.
        unfold s2. rewrite through_set_through_ne by done. split; auto.
      * rewrite IH4. unfold s2. by rewrite recipes_set_through.
      * intros pk1 row1 Hin Hnone.
        destruct (rows (manager k s1) !! pk1) as [row1'|] eqn:E1.
        -- (* the row created for the head object *)
           destruct created; [|destruct Hc as [-> _]; congruence].
           destruct Hc as (Hnil & _ & -> & Hins).
           assert (pk1 = default (next_id (manager k s)) q.1 ∧
                   row1' = mkNamed u (default "" q.2)) as [-> ->].
           { rewrite Hins in E1. apply lookup_insert_Some in E1.
             destruct E1 as [[? ?]|[_ ?]]; [done|congruence]. }
           assert (row1 = mkNamed u (default "" q.2)) as ->.
           { eapply lookup_weaken in E1; [|exact IH1]. congruence. }
           exists obj. split_and!; [left| |].
           ++ exists q. split; [done|]. apply created_row_matches.
           ++ intros pk0 row0 Hrow0 (q' & Hq' & Hm').
              assert (q' = q) as -> by congruence.
              by eapply candidates_nil.
        -- destruct (IH5 pk1 row1 Hin E1) as (obj' & Hin' & Hm' & Hno).
           exists obj'. split_and!; [by right|done|].
           intros pk0 row0 Hrow0. apply Hno.
           by eapply lookup_weaken.
      * destruct (get_or_create_each db k u objs r s2) as [[] s3|e s3] eqn:E3;
          [|done].
        simpl in *. intros obj' pk0 row0 Hin Hrow0 Hm0.
        apply elem_of_cons in Hin as [->|Hin].
        -- destruct Hm0 as (q' & Hq' & Hm').
           assert (q' = q) as -> by congruence.
           destruct created.
           ++ destruct Hc as (Hnil & _). exfalso. by eapply candidates_nil.
           ++ destruct Hc as (-> & row & Hc).
              apply candidates_singleton in Hc as (_ & _ & Huniq).
              rewrite (Huniq pk0 row0 Hrow0 Hm').
              apply IH2, elem_of_union_l, elem_of_singleton. done.
        -- eapply IH6; [done| |done]. rewrite Hm2. by eapply lookup_weaken.
    + simpl. split_and!; try done.
      * rewrite Hthr. done.
      * intros k' Hk. split; [by apply Hman|apply Hthr].
      * intros pk1 row1 Hin Hnone. exfalso.
        revert E. unfold get_or_create.
        destruct (parse_kwargs obj) as [q|]; [|intros [= <- <-]; congruence].
        destruct (candidates u q (manager k s)) as [|[? ?] [|? ?]];
          [|done|intros [= <- <-]; congruence].
        rewrite bind_unfold.
        destruct (objects_create db k u q s) as [?|e1 s1'] eqn:Hcr; [done|].
        intros [= <- <-]. apply objects_create_Raise in Hcr as (Heq&_).
        congruence.
Qed.

(** ** Dictionaries *)

(** ** The API layer keeps associations within one user *)

Lemma get_set_item {V} (k : string) (v : V) (d : dict V) :
  get k (set_item k v d) = Some v.
Proof.
  induction d as [|[k' v'] d IH]; simpl.
  - by rewrite decide_True.
  - destruct (decide (k' = k)) as [->|Hne]; simpl.
    + by rewrite decide_True.
    + by rewrite decide_False.
Qed.

(** ** The [create_recipe] helper of the tests *)

Lemma get_set_item_ne {V} (k k' : string) (v : V) (d : dict V) :
  k ≠ k' → get k' (set_item k v d) = get k' d.
Proof.
  intros Hne. induction d as [|[k0 v0] d IH]; simpl.
  - case_decide; [congruence|done].
  - destruct (decide (k0 = k)) as [->|Hk]; simpl.
    + repeat case_decide; congruence.
    + by rewrite IH.
Qed.

Lemma get_not_elem {V} (k : string) (d : dict V) : k ∉ d.*1 → get k d = None.
Proof.
  induction d as [|[k' v] d IH]; [done|]. simpl. intros Hnot.
  apply not_elem_of_cons in Hnot as [Hne Hnot].
  rewrite decide_False by done. by apply IH.
Qed.

Lemma remove_keys {V} (k : string) (d : dict V) : (remove k d).*1 ⊆ d.*1.
Proof.
  unfold remove. intros x Hx. apply list_elem_of_fmap in Hx as (kv & -> & Hin).
  apply list_elem_of_filter in Hin as [_ Hin]. apply list_elem_of_fmap. eauto.
Qed.


Lemma remove_NoDup {V} (k : string) (d : dict V) :
  NoDup d.*1 → NoDup (remove k d).*1.
Proof.
  unfold remove. induction d as [|[k' v] d IH]; [done|].
  simpl. intros Hnd. apply NoDup_cons in Hnd as [Hk Hnd].
  rewrite filter_cons. destruct (decide ((k', v).1 ≠ k)); [|by apply IH].
  simpl. apply NoDup_cons. split; [|by apply IH].
  intros Hin. apply Hk. by apply remove_keys in Hin.
Qed.

Lemma set_item_keys_in {V} (k : string) (v : V) (d : dict V) :
  k ∈ d.*1 → (set_item k v d).*1 = d.*1.
Proof.
  induction d as [|[k0 v0] d IH]; simpl; intros Hin.
  - by apply not_elem_of_nil in Hin.
  - destruct (decide (k0 = k)) as [->|Hk]; simpl; [done|].
    apply elem_of_cons in Hin as [->|Hin]; [done|]. f_equal. by apply IH.
Qed.

Lemma set_item_keys_notin {V} (k : string) (v : V) (d : dict V) :
  k ∉ d.*1 → (set_item k v d).*1 = d.*1 ++ [k].
Proof.
  induction d as [|[k0 v0] d IH]; simpl; intros Hin; [done|].
  apply not_elem_of_cons in Hin as [Hne Hin].
  destruct (decide (k0 = k)) as [->|Hk]; simpl; [done|]. f_equal. by apply IH.
Qed.

Lemma set_item_NoDup {V} (k : string) (v : V) (d : dict V) :
  NoDup d.*1 → NoDup (set_item k v d).*1.
Proof.
  intros Hnd. destruct (decide (k ∈ d.*1)) as [Hin|Hin].
  - by rewrite set_item_keys_in.
  - rewrite set_item_keys_notin by done.
    apply NoDup_app. split_and!; [done| |apply NoDup_singleton].
    intros x Hx Hk. apply list_elem_of_singleton in Hk. by subst.
Qed.




(** ** [create] and [update], step by step *)

Lemma get_remove_ne {V} (k k' : string) (d : dict V) :
  k ≠ k' → get k (remove k' d) = get k d.
Proof.
  intros Hne. unfold remove. induction d as [|[k0 v] d IH]; [done|].
  rewrite filter_cons. simpl. destruct (decide (k0 ≠ k')) as [Hk|Hk]; simpl.
  - by rewrite IH.
  - apply dec_stable in Hk. subst k0.
    destruct (decide (k' = k)); [congruence|done].
Qed.

Lemma create_unfold db u vd s :
  create db u vd s =
  match Recipe_objects_create db (remove "ingredient" (remove "tags" vd)) s with
  | Ok recipe s1 =>
      match nested_get_or_create db Tags u
              (from_option id (Items []) (get "tags" vd)) recipe.1 s1 with
      | Ok _ s2 =>
          match nested_get_or_create db Ingredients u
                  (from_option id (Items []) (get "ingredient" vd))
                  recipe.1 s2 with
          | Ok _ s3 => Ok recipe s3
          | Raise e s3 => Raise e s3
          end
      | Raise e s2 => Raise e s2
      end
  | Raise e s1 => Raise e s1
  end.
Proof.
  unfold create, pop. rewrite (get_remove_ne "ingredient" "tags") by done.
  rewrite bind_unfold.
  destruct (Recipe_objects_create db _ s) as [recipe s1|]; [|done].
  rewrite bind_unfold. unfold _get_or_create_tags, nested_get_or_create.
  destruct (for_each_in _ _ s1) as [[] s2|]; [|done].
  rewrite bind_unfold. unfold _get_or_create_ingredients.
  destruct (for_each_in _ _ s2) as [[] s3|]; done.
Qed.

Lemma update_unfold db u instance vd s :
  update db u instance vd s =
  match replace_related db Tags u
          (from_option id (Items []) (get "tags" vd)) instance.1 s with
  | Ok _ s1 =>
      match replace_related db Ingredients u
              (from_option id (Items []) (get "ingredient" vd))
              instance.1 s1 with
      | Ok _ s2 =>
          assign_and_save db instance
            (remove "ingredient" (remove "tags" vd)) s2
      | Raise e s2 => Raise e s2
      end
  | Raise e s1 => Raise e s1
  end.
Proof.
  unfold update, pop. rewrite (get_remove_ne "ingredient" "tags") by done.
  rewrite bind_unfold.
  change (if is_not_None ?v then clear Tags ?r;; _get_or_create_tags db u ?v ?r
          else mret ()) with (replace_related db Tags u v r).
  destruct (replace_related db Tags _ _ _ s) as [[] s1|]; [|done].
  rewrite bind_unfold.
  change (if is_not_None ?v
          then clear Ingredients ?r;; _get_or_create_ingredients db u ?v ?r
          else mret ()) with (replace_related db Ingredients u v r).
  by destruct (replace_related db Ingredients _ _ _ s1) as [[] s2|].
Qed.

(** ** Saving a recipe object *)

Lemma manager_set_recipes k m n s : manager k (set_recipes m n s) = manager k s.
Proof. by destruct k. Qed.

Lemma through_set_recipes k m n s : through k (set_recipes m n s) = through k s.
Proof. by destruct k. Qed.

(** A save writes at most one row, that of the object's key, with the
    object's owner and the values the database keeps for its columns; a
    save that raises writes none.  Tags, ingredients and associations
    are not its concern. *)
Lemma save_post db force_insert obj s :
  let o := save db force_insert obj s in
  (∀ k, manager k (final_state o) = manager k s ∧
        through k (final_state o) = through k s) ∧
  match o with
  | Ok r s' =>
      db_error db obj = None ∧
      ∃ u, as_key db (attr obj "user_id") = inr (Some u) ∧
        Recipe_objects s' = <[r.1 := row_of db u obj]> (Recipe_objects s) ∧
        (force_insert = true → Recipe_objects s !! r.1 = None) ∧
        (as_key db (attr obj "id") = inr (Some r.1) ∧
         r.2 = committed db obj ∧ Recipe_next_id s' = Recipe_next_id s
         ∨
         as_key db (attr obj "id") = inr None ∧
         r.1 = Recipe_next_id s ∧ Recipe_objects s !! r.1 = None ∧
         r.2 = set_item "id" (Scalar (Int r.1)) (committed db obj))
  | Raise _ s' => Recipe_objects s' = Recipe_objects s
  end.
Proof.
  unfold save. destruct (db_error db obj); [by split; [intros []|]|].
  destruct (as_key db (attr obj "id")) as [?|key]; [by split; [intros []|]|].
  destruct (as_key db (attr obj "user_id")) as [?|[u|]];
    [by split; [intros []|]| |by split; [intros []|]].
  destruct key as [pk|].
  - destruct force_insert; simpl.
    + case_bool_decide as Hin.
      * by split; [intros []|].
      * split; [by intros []|]. split; [done|]. exists u. split_and!; try done.
        -- intros _. by apply eq_None_not_Some.
        -- left. done.
    + split; [by intros []|]. split; [done|]. exists u. split_and!; try done.
      left. done.
  - cbv zeta. destruct (Recipe_objects s !! Recipe_next_id s) eqn:E.
    + by split; [intros []|].
    + split; [by intros []|]. split; [done|]. exists u. split_and!; try done.
      right. done.
Qed.


Lemma assign_and_save_unfold db instance vd s :
  assign_and_save db instance vd s =
  match setattr_each (load instance) vd with
  | inl e => Raise e s
  | inr obj => save db false obj s
  end.
Proof.
  unfold assign_and_save. rewrite bind_unfold. unfold lift.
  by destruct (setattr_each _ _).
Qed.

(** The close of [update] leaves tags, ingredients and associations as
    they are, and the recipes too when it raises. *)
Lemma assign_and_save_frame db instance vd s :
  let o := assign_and_save db instance vd s in
  (∀ k, manager k (final_state o) = manager k s ∧
        through k (final_state o) = through k s) ∧
  match o with
  | Ok r s' => ∃ row, Recipe_objects s' = <[r.1 := row]> (Recipe_objects s)
  | Raise _ s' => Recipe_objects s' = Recipe_objects s
  end.
Proof.
  cbv zeta. rewrite assign_and_save_unfold.
  destruct (setattr_each _ _) as [e|obj]; [by split; [intros []|]|].
  pose proof (save_post db false obj s) as [Hfr Hpost]. cbv zeta in Hfr.
  split; [done|]. destruct (save db false obj s) as [r s'|]; [|done].
  destruct Hpost as (_ & u & _ & Hrec & _). eauto.
Qed.

(** ** What each step of [create] and [update] leaves alone *)

Lemma nested_get_or_create_Items db k u objs r :
  nested_get_or_create db k u (Items objs) r = get_or_create_each db k u objs r.
Proof. reflexivity. Qed.

Lemma nested_get_or_create_frame db k u v r s :
  let s' := final_state (nested_get_or_create db k u v r s) in
  rows (manager k s) ⊆ rows (manager k s') ∧
  through k s ⊆ through k s' ∧
  (∀ k', k' ≠ k → manager k' s' = manager k' s ∧ through k' s' = through k' s) ∧
  Recipe_objects s' = Recipe_objects s.
Proof.
  destruct v as [x|objs].
  - assert (final_state (nested_get_or_create db k u (Scalar x) r s) = s) as ->.
    { unfold nested_get_or_create, for_each_in.
      destruct x as [| |[|a str]]; reflexivity. }
    done.
  - rewrite nested_get_or_create_Items.
    destruct (get_or_create_each_post db k u r objs s) as (?&?&?&?&_). done.
Qed.

Lemma replace_related_frame db k u v r s :
  let s' := final_state (replace_related db k u v r s) in
  rows (manager k s) ⊆ rows (manager k s') ∧
  (∀ k', k' ≠ k → manager k' s' = manager k' s ∧ through k' s' = through k' s) ∧
  Recipe_objects s' = Recipe_objects s.
Proof.
  unfold replace_related. destruct (is_not_None v); [|done].
  rewrite bind_unfold.
  destruct (clear_frame k r s) as (s1 & -> & _ & Ht & Hm & Hr).
  destruct (nested_get_or_create_frame db k u v r s1) as (H1 & _ & H3 & H4).
  cbv zeta. rewrite Hm in H1. split_and!; [done| |congruence].
  intros k' Hk. destruct (H3 k' Hk) as [-> ->]. split; [apply Hm|by apply Ht].
Qed.

(** [Recipe.objects.create] inserts one row, under a key not in use, for
    the object built from the keyword arguments, or raises and writes
    nothing. *)
Lemma Recipe_objects_create_post db kwargs s :
  let o := Recipe_objects_create db kwargs s in
  (∀ k, manager k (final_state o) = manager k s ∧
        through k (final_state o) = through k s) ∧
  match o with
  | Ok recipe s1 =>
      Recipe_objects s !! recipe.1 = None ∧
      ∃ obj u,
        Recipe_init db kwargs = inr obj ∧ db_error db obj = None ∧
        as_key db (attr obj "user_id") = inr (Some u) ∧
        Recipe_objects s1 = <[recipe.1 := row_of db u obj]> (Recipe_objects s) ∧
        (as_key db (attr obj "id") = inr (Some recipe.1) ∧
         recipe.2 = committed db obj
         ∨
         as_key db (attr obj "id") = inr None ∧
         recipe.1 = Recipe_next_id s ∧
         recipe.2 = set_item "id" (Scalar (Int recipe.1)) (committed db obj))
  | Raise _ s1 => Recipe_objects s1 = Recipe_objects s
  end.
Proof.
  unfold Recipe_objects_create. cbv zeta. rewrite bind_unfold. unfold lift.
  destruct (Recipe_init db kwargs) as [e|obj]; [by split; [intros []|]|].
  pose proof (save_post db true obj s) as [Hfr Hpost]. cbv zeta in Hfr.
  split; [done|].
  destruct (save db true obj s) as [recipe s1|e s1]; [|done].
  destruct Hpost as (Herr & u & Hu & Hrec & Hnone & Hkey).
  split; [by apply Hnone|]. exists obj, u. split_and!; try done.
  destruct Hkey as [(?&?&?)|(?&?&?&?)]; [left|right]; done.
Qed.

Lemma Recipe_objects_create_frame db kwargs s :
  let o := Recipe_objects_create db kwargs s in
  (∀ k, manager k (final_state o) = manager k s ∧
        through k (final_state o) = through k s) ∧
  match o with
  | Ok recipe s1 =>
      Recipe_objects s !! recipe.1 = None ∧
      ∃ row, Recipe_objects s1 = <[recipe.1 := row]> (Recipe_objects s)
  | Raise _ s1 => Recipe_objects s1 = Recipe_objects s
  end.
Proof.
  pose proof (Recipe_objects_create_post db kwargs s) as [Hfr Hpost].
  cbv zeta in *. split; [done|].
  destruct (Recipe_objects_create db kwargs s) as [recipe s1|e s1]; [|done].
  destruct Hpost as (Hnone & obj & u & _ & _ & _ & Hrec & _). eauto.
Qed.

(** ** Reuse of stored rows by the nested get-or-create *)

(** The nested objects are handled by one run of the loop, from a store
    with the rows of [s]; what comes after it leaves those rows alone. *)
Lemma reuses_existing_loop db k u objs s r sa s' :
  rows (manager k sa) = rows (manager k s) →
  rows (manager k s') =
    rows (manager k (final_state (get_or_create_each db k u objs r sa))) →
  reuses_existing k u objs s s'.
Proof.
  intros Hsa Hfin.
  destruct (get_or_create_each_post db k u r objs sa) as (H1 & _ & _ & _ & H5 & _).
  rewrite Hsa in H1, H5. unfold reuses_existing. by rewrite Hfin.
Qed.

(** The loop was not reached. *)
Lemma reuses_existing_skip k u objs s s' :
  rows (manager k s') = rows (manager k s) →
  reuses_existing k u objs s s'.
Proof.
  intros Hfin. unfold reuses_existing. rewrite Hfin. split; [done|].
  intros pk row H1 H2. congruence.
Qed.

(** Once the loop has gone through, every stored row matching one of the
    objects is associated. *)
Lemma associates_existing_loop db k u objs s r sa sb s' :
  rows (manager k sa) = rows (manager k s) →
  get_or_create_each db k u objs r sa = Ok () sb →
  through k sb ⊆ through k s' →
  associates_existing k u objs s r s'.
Proof.
  intros Hsa Hloop Hthr.
  destruct (get_or_create_each_post db k u r objs sa) as (_ & _ & _ & _ & _ & H6).
  rewrite Hloop in H6. intros obj pk0 row0 Hin Hrow0 Hm.
  apply Hthr. eapply H6; [done| |done]. by rewrite Hsa.
Qed.

(** ** The associations of other recipes *)

(** In any outcome, the loop adds associations of the given recipe only. *)
Lemma get_or_create_each_other_recipes db k u r objs s :
  ∀ p, p ∈ through k (final_state (get_or_create_each db k u objs r s)) →
       p ∈ through k s ∨ p.1 = r.
Proof.
  revert s. induction objs as [|obj objs IH]; intros s p; [by left|].
  rewrite get_or_create_each_cons.
  destruct (get_or_create_frame db k u obj s) as (_ & Hthr & _).
  destruct (get_or_create db k u obj s) as [[pk created] s1|e s1];
    cbn [final_state] in *; [|rewrite Hthr; by left].
  intros Hp. destruct (IH _ p Hp) as [Hold|Hr]; [|by right].
  rewrite through_set_through, Hthr in Hold.
  apply elem_of_union in Hold as [Hnew|Hold]; [|by left].
  apply elem_of_singleton in Hnew as ->. by right.
Qed.

Lemma nested_get_or_create_off db k u v r s k0 p :
  p.1 ≠ r →
  p ∈ through k0 (final_state (nested_get_or_create db k u v r s)) ↔
  p ∈ through k0 s.
Proof.
  intros Hne.
  destruct (nested_get_or_create_frame db k u v r s) as (_ & Hsub & Hother & _).
  destruct (decide (k0 = k)) as [->|Hk]; [|by destruct (Hother k0 Hk) as [_ ->]].
  split; [|apply Hsub]. destruct v as [x|objs].
  - assert (final_state (nested_get_or_create db k u (Scalar x) r s) = s) as ->;
      [|done].
    unfold nested_get_or_create, for_each_in.
    destruct x as [| |[|a str]]; reflexivity.
  - rewrite nested_get_or_create_Items. intros Hp.
    by destruct (get_or_create_each_other_recipes db k u r objs s p Hp).
Qed.

Lemma replace_related_off db k u v r s k0 p :
  p.1 ≠ r →
  p ∈ through k0 (final_state (replace_related db k u v r s)) ↔ p ∈ through k0 s.
Proof.
  intros Hne. unfold replace_related. destruct (is_not_None v); [|done].
  rewrite bind_unfold.
  destruct (clear_frame k r s) as (s1 & -> & Ht & Hto & _).
  rewrite nested_get_or_create_off by done.
  destruct (decide (k0 = k)) as [->|Hk]; [|by rewrite Hto].
  rewrite Ht, elem_of_filter. tauto.
Qed.

(** [update] changes the associations of the recipe it is given and of
    no other, in every outcome; and when it raises, no recipe row. *)
Lemma update_frame_other_recipes db u instance vd s k rpk pk :
  rpk ≠ instance.1 →
  (rpk, pk) ∈ through k (final_state (update db u instance vd s)) ↔
  (rpk, pk) ∈ through k s.
Proof.
  intros Hne. rewrite update_unfold.
  pose proof (λ k pk, replace_related_off db Tags u
    (from_option id (Items []) (get "tags" vd)) instance.1 s k (rpk, pk) Hne)
    as Ht1.
  destruct (replace_related db Tags _ _ _ s) as [[] s1|e s1];
    cbn [final_state] in *; [|done].
  pose proof (λ k pk, replace_related_off db Ingredients u
    (from_option id (Items []) (get "ingredient" vd)) instance.1 s1 k (rpk, pk)
    Hne) as Ht2.
  destruct (replace_related db Ingredients _ _ _ s1) as [[] s2|e s2];
    cbn [final_state] in *; [|by rewrite Ht2].
  destruct (assign_and_save_frame db instance
              (remove "ingredient" (remove "tags" vd)) s2) as [Hfr _].
  destruct (Hfr k) as [_ ->]. by rewrite Ht2.
Qed.

Lemma replace_related_Items db k u objs r s :
  replace_related db k u (Items objs) r s =
  get_or_create_each db k u objs r
    (set_through k (filter (λ p, p.1 ≠ r) (through k s)) s).
Proof. reflexivity. Qed.

(** The steps of [create], with what each leaves of the table and the
    associations of relation [k]. *)
Lemma create_steps db k u vd s :
  let o := create db u vd s in
  (rows (manager k (final_state o)) = rows (manager k s) ∧
   ∀ recipe s', o ≠ Ok recipe s')
  ∨
  ∃ recipe s1 sa,
    Recipe_objects_create db (remove "ingredient" (remove "tags" vd)) s
      = Ok recipe s1 ∧
    rows (manager k sa) = rows (manager k s) ∧
    rows (manager k (final_state o)) =
      rows (manager k (final_state
        (nested_get_or_create db k u
           (from_option id (Items []) (get (field_of k) vd)) recipe.1 sa))) ∧
    ∀ recipe' s', o = Ok recipe' s' →
      recipe' = recipe ∧
      ∃ sb, nested_get_or_create db k u
              (from_option id (Items []) (get (field_of k) vd)) recipe.1 sa
            = Ok () sb ∧
            through k s' = through k sb.
Proof.
  cbv zeta. rewrite create_unfold.
  pose proof (Recipe_objects_create_frame db
                (remove "ingredient" (remove "tags" vd)) s) as [Hfr _].
  cbv zeta in Hfr.
  destruct (Recipe_objects_create db _ s) as [recipe s1|e s1]; simpl in Hfr.
  2:{ left. split; [simpl; by destruct (Hfr k) as [-> _]|done]. }
  pose proof (nested_get_or_create_frame db Tags u
    (from_option id (Items []) (get "tags" vd)) recipe.1 s1) as Ht.
  cbv zeta in Ht. destruct Ht as (_ & _ & Ht & _).
  destruct k.
  - (* tags: the first loop *)
    right. exists recipe, s1, s1. split; [done|].
    split; [by destruct (Hfr Tags) as [-> _]|]. cbn [field_of].
    destruct (nested_get_or_create db Tags u _ recipe.1 s1) as [[] s2|e s2];
      [|split; [done|by intros ? ? [=]]].
    pose proof (nested_get_or_create_frame db Ingredients u
      (from_option id (Items []) (get "ingredient" vd)) recipe.1 s2) as Hi.
    cbv zeta in Hi. destruct Hi as (_ & _ & Hi & _).
    destruct (Hi Tags) as [Hm Hthr]; [done|].
    destruct (nested_get_or_create db Ingredients _ _ _ s2) as [[] s3|e s3];
      cbn [final_state] in *.
    + split; [by rewrite Hm|]. intros recipe' s' [= <- <-]. eauto.
    + split; [by rewrite Hm|]. by intros ? ? [=].
  - (* ingredients: the second loop, reached when the first succeeds *)
    destruct (Ht Ingredients) as [Hm _]; [done|].
    destruct (nested_get_or_create db Tags _ _ _ s1) as [[] s2|e s2];
      cbn [final_state] in Hm.
    2:{ left. split; [|done]. cbn [final_state]. rewrite Hm.
        by destruct (Hfr Ingredients) as [-> _]. }
    right. exists recipe, s1, s2. split; [done|].
    split; [rewrite Hm; by destruct (Hfr Ingredients) as [-> _]|].
    cbn [field_of].
    destruct (nested_get_or_create db Ingredients _ _ _ s2) as [[] s3|e s3].
    + split; [done|]. intros recipe' s' [= <- <-]. eauto.
    + split; [done|]. by intros ? ? [=].
Qed.

Lemma create_reuses_existing db k u vd objs s :
  get (field_of k) vd = Some (Items objs) →
  reuses_existing k u objs s (final_state (create db u vd s)) ∧
  ∀ recipe s', create db u vd s = Ok recipe s' →
    associates_existing k u objs s recipe.1 s'.
Proof.
  intros Hget.
  destruct (create_steps db k u vd s)
    as [[Hrows Hno]|(recipe & s1 & sa & Hcr & Hsa & Hfin & Hok)].
  - split; [by apply reuses_existing_skip|]. intros recipe s' Heq.
    by destruct (Hno recipe s').
  - rewrite Hget in *. simpl from_option in *.
    rewrite nested_get_or_create_Items in *. split.
    + by eapply reuses_existing_loop.
    + intros recipe' s' Heq.
      destruct (Hok recipe' s' Heq) as (-> & sb & Hloop & Hthr).
      eapply associates_existing_loop; [done|done|by rewrite Hthr].
Qed.

(** The steps of [update], likewise; the associations are those of the
    recipe being updated. *)
Lemma update_steps db k u instance vd s :
  let o := update db u instance vd s in
  (rows (manager k (final_state o)) = rows (manager k s) ∧
   ∀ recipe s', o ≠ Ok recipe s')
  ∨
  ∃ sa,
    rows (manager k sa) = rows (manager k s) ∧
    (∀ rpk pk, rpk ≠ instance.1 → (rpk, pk) ∈ through k sa ↔ (rpk, pk) ∈ through k s) ∧
    manager k (final_state o) =
      manager k (final_state
        (replace_related db k u
           (from_option id (Items []) (get (field_of k) vd)) instance.1 sa)) ∧
    (through k (final_state o) =
      through k (final_state
        (replace_related db k u
           (from_option id (Items []) (get (field_of k) vd)) instance.1 sa))) ∧
    ∀ recipe' s', o = Ok recipe' s' →
      ∃ sb, replace_related db k u
              (from_option id (Items []) (get (field_of k) vd)) instance.1 sa
            = Ok () sb.
Proof.
  cbv zeta. rewrite update_unfold.
  pose proof (replace_related_frame db Tags u
    (from_option id (Items []) (get "tags" vd)) instance.1 s) as Ht.
  cbv zeta in Ht. destruct Ht as (_ & Ht & _).
  destruct k.
  - right. exists s. split; [done|]. split; [done|]. cbn [field_of].
    destruct (replace_related db Tags u _ instance.1 s) as [[] s1|e s1];
      [|split_and!; [done|done|by intros ? ? [=]]].
    pose proof (replace_related_frame db Ingredients u
      (from_option id (Items []) (get "ingredient" vd)) instance.1 s1) as Hi.
    cbv zeta in Hi. destruct Hi as (_ & Hi & _).
    destruct (Hi Tags) as [Hm Hthr]; [done|].
    destruct (replace_related db Ingredients _ _ _ s1) as [[] s2|e s2];
      cbn [final_state] in *; [|split_and!; [done|done|by intros ? ? [=]]].
    destruct (assign_and_save_frame db instance
                (remove "ingredient" (remove "tags" vd)) s2) as [Hfr _].
    destruct (Hfr Tags) as [Hm2 Hthr2].
    split_and!; [congruence|congruence|eauto].
  - destruct (Ht Ingredients) as [Hm Hthr]; [done|].
    destruct (replace_related db Tags _ _ _ s) as [[] s1|e s1];
      cbn [final_state] in Hm, Hthr.
    2:{ left. split; [|done]. cbn [final_state]. by rewrite Hm. }
    right. exists s1. split; [by rewrite Hm|]. split; [by rewrite Hthr|].
    cbn [field_of].
    destruct (replace_related db Ingredients _ _ _ s1) as [[] s2|e s2];
      cbn [final_state]; [|split_and!; [done|done|by intros ? ? [=]]].
    destruct (assign_and_save_frame db instance
                (remove "ingredient" (remove "tags" vd)) s2) as [Hfr _].
    destruct (Hfr Ingredients) as [Hm2 Hthr2].
    split_and!; [done|done|eauto].
Qed.

Lemma update_reuses_existing db k u instance vd objs s :
  get (field_of k) vd = Some (Items objs) →
  reuses_existing k u objs s (final_state (update db u instance vd s)) ∧
  ∀ recipe s', update db u instance vd s = Ok recipe s' →
    associates_existing k u objs s instance.1 s'.
Proof.
  intros Hget.
  destruct (update_steps db k u instance vd s)
    as [[Hrows Hno]|(sa & Hsa & _ & Hm & Hthr & Hok)].
  - split; [by apply reuses_existing_skip|]. intros recipe s' Heq.
    by destruct (Hno recipe s').
  - rewrite Hget in *. simpl from_option in *.
    rewrite replace_related_Items in *.
    set (sc := set_through k _ sa) in *. split.
    + apply (reuses_existing_loop db k u objs s instance.1 sc);
        [unfold sc; by rewrite manager_set_through|by rewrite Hm].
    + intros recipe' s' Heq. destruct (Hok recipe' s' Heq) as (sb & Hloop).
      rewrite Heq, Hloop in Hthr. cbn [final_state] in Hthr.
      eapply (associates_existing_loop db k u objs s instance.1 sc sb);
        [unfold sc; by rewrite manager_set_through|done|by rewrite Hthr].
Qed.

(** ** On a well-kept table the nested get-or-create does not fail *)

Lemma candidates_at_most_one u n t :
  unique_names t →
  candidates u (None, Some n) t = [] ∨
  ∃ pk row, candidates u (None, Some n) t = [(pk, row)].
Proof.
  intros Huniq.
  assert (Hnd : NoDup (candidates u (None, Some n) t))
    by apply NoDup_map_to_list.
  destruct (candidates u (None, Some n) t) as [|[pk1 r1] [|[pk2 r2] l]] eqn:E;
    [by left|right; eauto|exfalso].
  assert (H1 : (pk1, r1) ∈ candidates u (None, Some n) t)
    by (rewrite E; apply list_elem_of_here).
  assert (H2 : (pk2, r2) ∈ candidates u (None, Some n) t)
    by (rewrite E; apply list_elem_of_further, list_elem_of_here).
  apply elem_of_candidates_name in H1 as (Hr1 & Hu1 & Hn1).
  apply elem_of_candidates_name in H2 as (Hr2 & Hu2 & Hn2).
  assert (pk1 = pk2) as -> by (eapply Huniq; [done|done|congruence|congruence]).
  assert (r1 = r2) as -> by congruence.
  apply NoDup_cons in Hnd as [Hnot _]. apply Hnot, list_elem_of_here.
Qed.

Lemma get_or_create_name_succeeds db k u n s :
  name_error db k n = None →
  well_kept (manager k s) →
  ∃ pk created s',
    get_or_create db k u [("name", Str n)] s = Ok (pk, created) s' ∧
    well_kept (manager k s').
Proof.
  intros Hacc [Huniq Hseq]. unfold get_or_create. simpl parse_kwargs.
  destruct (candidates_at_most_one u n (manager k s) Huniq)
    as [Hnil|(pk & row & Hone)].
  - rewrite Hnil, bind_unfold. unfold objects_create. simpl. rewrite Hacc.
    destruct (rows (manager k s) !! next_id (manager k s)) as [row|] eqn:E.
    { specialize (Hseq (next_id (manager k s)) (mk_is_Some _ _ E)). lia. }
    eexists _, _, _. split; [reflexivity|].
    rewrite manager_set_manager. split.
    + intros pk1 pk2 r1 r2 H1 H2 Hu Hn. simpl in H1, H2.
      apply lookup_insert_Some in H1 as [[<- <-]|[Hne1 H1]];
        apply lookup_insert_Some in H2 as [[<- <-]|[Hne2 H2]]; simpl in *.
      * done.
      * exfalso. eapply (candidates_nil _ _ _ Hnil pk2 r2 H2).
        unfold matching. simpl. split_and!; [congruence|done|congruence].
      * exfalso. eapply (candidates_nil _ _ _ Hnil pk1 r1 H1).
        unfold matching. simpl. split_and!; [congruence|done|congruence].
      * by eapply Huniq.
    + intros pk Hin. simpl in *.
      apply lookup_insert_is_Some in Hin as [<-|[_ Hin]]; [lia|].
      specialize (Hseq pk Hin). lia.
  - rewrite Hone. eexists _, _, _. split; [reflexivity|]. done.
Qed.

(** Name-only objects, as validation hands them over, with names the
    database takes, on a well-kept table: every lookup finds at most one
    row, every insert gets a key not in use, so the loop ends well, and
    the table stays well kept. *)
Lemma get_or_create_each_succeeds db k u r objs s :
  names_accepted db k objs →
  well_kept (manager k s) →
  ∃ s', get_or_create_each db k u objs r s = Ok () s' ∧ well_kept (manager k s').
Proof.
  intros Hobjs. revert s.
  induction Hobjs as [|obj objs (n & -> & Hacc) _ IH]; intros s Hwk.
  - exists s. done.
  - rewrite get_or_create_each_cons.
    destruct (get_or_create_name_succeeds db k u n s Hacc Hwk)
      as (pk & created & s1 & -> & Hwk1).
    apply IH. by rewrite manager_set_through.
Qed.

Lemma replace_related_succeeds db k u r objs s :
  names_accepted db k objs → (∀ k0, well_kept (manager k0 s)) →
  ∃ s', replace_related db k u (Items objs) r s = Ok () s' ∧
        (∀ k0, well_kept (manager k0 s')) ∧
        Recipe_objects s' = Recipe_objects s.
Proof.
  intros Hobjs Hwk. rewrite replace_related_Items.
  set (sa := set_through k _ s).
  destruct (get_or_create_each_succeeds db k u r objs sa Hobjs)
    as (s' & Hok & Hwk').
  { unfold sa. rewrite manager_set_through. apply Hwk. }
  exists s'. split; [done|].
  destruct (get_or_create_each_post db k u r objs sa)
    as (_ & _ & Hother & Hrec & _).
  rewrite Hok in Hother, Hrec. cbn [final_state] in *. split.
  - intros k0. destruct (decide (k0 = k)) as [->|Hne]; [done|].
    destruct (Hother k0 Hne) as [-> _]. unfold sa.
    rewrite manager_set_through. apply Hwk.
  - rewrite Hrec. unfold sa. by rewrite recipes_set_through.
Qed.

Lemma nested_get_or_create_succeeds db k u r objs s :
  names_accepted db k objs → (∀ k0, well_kept (manager k0 s)) →
  ∃ s', nested_get_or_create db k u (Items objs) r s = Ok () s' ∧
        (∀ k0, well_kept (manager k0 s')).
Proof.
  intros Hobjs Hwk. rewrite nested_get_or_create_Items.
  destruct (get_or_create_each_succeeds db k u r objs s Hobjs (Hwk k))
    as (s' & Hok & Hwk').
  exists s'. split; [done|].
  destruct (get_or_create_each_post db k u r objs s) as (_ & _ & Hother & _).
  rewrite Hok in Hother. cbn [final_state] in *.
  intros k0. destruct (decide (k0 = k)) as [->|Hne]; [done|].
  destruct (Hother k0 Hne) as [-> _]. apply Hwk.
Qed.

(** On well-kept tables, with names the database takes, the two loops of
    [create] go through once the recipe is inserted. *)
Lemma create_succeeds db u vd s recipe s1 :
  (∀ k, well_kept (manager k s)) →
  (∀ k, names_accepted_or_absent db k vd) →
  Recipe_objects_create db (remove "ingredient" (remove "tags" vd)) s
    = Ok recipe s1 →
  ∃ s', create db u vd s = Ok recipe s' ∧ ∀ k, well_kept (manager k s').
Proof.
  intros Hwk Hshape Hcr.
  destruct (Hshape Tags) as (tags & Htags & Hnt).
  destruct (Hshape Ingredients) as (ings & Hings & Hni).
  simpl in Htags, Hings. rewrite create_unfold, Hcr, Htags, Hings.
  pose proof (Recipe_objects_create_frame db
                (remove "ingredient" (remove "tags" vd)) s) as [Hfr _].
  rewrite Hcr in Hfr. cbn [final_state] in Hfr.
  assert (Hwk1 : ∀ k, well_kept (manager k s1))
    by (intros k; destruct (Hfr k) as [-> _]; apply Hwk).
  destruct (nested_get_or_create_succeeds db Tags u recipe.1 tags s1 Hnt Hwk1)
    as (s2 & -> & Hwk2).
  destruct (nested_get_or_create_succeeds db Ingredients u recipe.1 ings s2
              Hni Hwk2) as (s3 & -> & Hwk3).
  eauto.
Qed.

(** Likewise the two blocks of [update]: what can still raise is the
    close, which leaves the tables as the blocks left them. *)
Lemma update_blocks_succeed db u instance vd s :
  (∀ k, well_kept (manager k s)) →
  (∀ k, names_accepted_or_absent db k vd) →
  ∃ s2,
    update db u instance vd s
    = assign_and_save db instance (remove "ingredient" (remove "tags" vd)) s2 ∧
    (∀ k, well_kept (manager k s2)) ∧
    Recipe_objects s2 = Recipe_objects s ∧
    (∀ k, manager k (final_state (update db u instance vd s)) = manager k s2 ∧
          through k (final_state (update db u instance vd s)) = through k s2).
Proof.
  intros Hwk Hshape.
  destruct (Hshape Tags) as (tags & Htags & Hnt).
  destruct (Hshape Ingredients) as (ings & Hings & Hni).
  simpl in Htags, Hings. rewrite update_unfold, Htags, Hings.
  destruct (replace_related_succeeds db Tags u instance.1 tags s Hnt Hwk)
    as (s1 & -> & Hwk1 & Hr1).
  destruct (replace_related_succeeds db Ingredients u instance.1 ings s1
              Hni Hwk1) as (s2 & -> & Hwk2 & Hr2).
  exists s2. split_and!; [done|done|congruence|].
  by destruct (assign_and_save_frame db instance
                 (remove "ingredient" (remove "tags" vd)) s2) as [Hfr _].
Qed.

(** On well-kept tables, with names the database takes, every stored row
    matching an object of the list is associated with the recipe being
    updated, whether the update ends well or its save is refused. *)
Lemma update_associates_existing db k u instance vd objs s :
  (∀ k0, well_kept (manager k0 s)) →
  (∀ k0, names_accepted_or_absent db k0 vd) →
  get (field_of k) vd = Some (Items objs) →
  associates_existing k u objs s instance.1
    (final_state (update db u instance vd s)).
Proof.
  intros Hwk Hshape Hget.
  destruct (Hshape Tags) as (tags & Htags & Hnt).
  destruct (Hshape Ingredients) as (ings & Hings & Hni).
  simpl in Htags, Hings. rewrite update_unfold, Htags, Hings.
  destruct (replace_related_succeeds db Tags u instance.1 tags s Hnt Hwk)
    as (s1 & Hok1 & Hwk1 & Hr1).
  destruct (replace_related_succeeds db Ingredients u instance.1 ings s1
              Hni Hwk1) as (s2 & Hok2 & Hwk2 & Hr2).
  destruct (replace_related_frame db Tags u (Items tags) instance.1 s)
    as (_ & Hft & _).
  destruct (replace_related_frame db Ingredients u (Items ings) instance.1 s1)
    as (_ & Hfi & _).
  rewrite Hok1 in Hft |- *. rewrite Hok2 in Hfi |- *.
  cbn [final_state] in Hft, Hfi.
  destruct (assign_and_save_frame db instance
              (remove "ingredient" (remove "tags" vd)) s2) as [Hfr _].
  rewrite replace_related_Items in Hok1, Hok2.
  destruct k; simpl in Hget.
  - assert (tags = objs) as -> by (rewrite Hget in Htags; by injection Htags).
    eapply (associates_existing_loop db Tags u objs s instance.1 _ s1);
      [by rewrite manager_set_through|exact Hok1|].
    destruct (Hfr Tags) as [_ ->]. destruct (Hfi Tags) as [_ ->]; done.
  - assert (ings = objs) as -> by (rewrite Hget in Hings; by injection Hings).
    eapply (associates_existing_loop db Ingredients u objs s instance.1 _ s2);
      [|exact Hok2|].
    + rewrite manager_set_through. by destruct (Hft Ingredients) as [-> _].
    + by destruct (Hfr Ingredients) as [_ ->].
Qed.

(** C2. When the tag list of a recipe create or update holds an object
    that a stored tag of the requesting user matches, no row is made for
    it: in every outcome the stored rows are left as they are and a tag
    row is added only for an object that no stored row of that user
    matched; and an operation that ends well has associated every
    matching stored row with the recipe.  The lookups do go through: on
    tables where no user has a name twice and the key sequence is ahead,
    with named objects whose names the database takes, a create whose
    recipe insert is accepted ends well, and an update has associated
    the matching rows whether or not its final save is accepted; the
    tables stay without duplicates.  The same for ingredients. *)
Theorem nested_get_or_create_reuses_existing db k u vd objs s :
  get (field_of k) vd = Some (Items objs) →
  (reuses_existing k u objs s (final_state (create db u vd s)) ∧
   ∀ recipe s', create db u vd s = Ok recipe s' →
     associates_existing k u objs s recipe.1 s') ∧
  (∀ instance,
     reuses_existing k u objs s (final_state (update db u instance vd s)) ∧
     ∀ recipe s', update db u instance vd s = Ok recipe s' →
       associates_existing k u objs s instance.1 s') ∧
  ((∀ k0, well_kept (manager k0 s)) →
   (∀ k0, names_accepted_or_absent db k0 vd) →
   (∀ recipe s1,
      Recipe_objects_create db (remove "ingredient" (remove "tags" vd)) s
        = Ok recipe s1 →
      ∃ s', create db u vd s = Ok recipe s' ∧
            associates_existing k u objs s recipe.1 s' ∧
            ∀ k0, well_kept (manager k0 s')) ∧
   (∀ instance,
      associates_existing k u objs s instance.1
        (final_state (update db u instance vd s)) ∧
      ∀ k0, well_kept (manager k0 (final_state (update db u instance vd s))))).
Proof.
  intros Hget. split_and!.
  - by apply create_reuses_existing.
  - by apply create_reuses_existing.
  - intros instance. by apply update_reuses_existing.
  - intros Hwk Hshape. split.
    + intros recipe s1 Hcr.
      destruct (create_succeeds db u vd s recipe s1 Hwk Hshape Hcr)
        as (s' & Hok & Hwk').
      exists s'. split_and!; [done| |done].
      by apply (proj2 (create_reuses_existing db k u vd objs s Hget) recipe s').
    + intros instance. split; [by apply update_associates_existing|].
      destruct (update_blocks_succeed db u instance vd s Hwk Hshape)
        as (s2 & _ & Hwk2 & _ & Hfin).
      intros k0. destruct (Hfin k0) as [-> _]. apply Hwk2.
Qed.

Lemma store_existing_tag_well_kept k : well_kept (manager k store_existing_tag).
Proof.
  destruct k; split.
  - intros pk1 pk2 r1 r2 H1 H2 _ _.
    change (rows (manager Tags store_existing_tag))
      with (<[1 := mkNamed 1 "Thai"]> (∅ : gmap Z Named)) in H1, H2.
    apply lookup_insert_Some in H1 as [[<- _]|[_ H1]]; [|done].
    apply lookup_insert_Some in H2 as [[<- _]|[_ H2]]; done.
  - intros pk [r Hr].
    change (rows (manager Tags store_existing_tag))
      with (<[1 := mkNamed 1 "Thai"]> (∅ : gmap Z Named)) in Hr.
    apply lookup_insert_Some in Hr as [[<- _]|[_ Hr]]; [simpl; lia|done].
  - intros pk1 pk2 r1 r2 H1. done.
  - intros pk [r Hr]. done.
Defined.

Lemma data_existing_tag_accepted k :
  names_accepted_or_absent strict_columns k data_existing_tag.
Proof.
  destruct k.
  - exists [[("name", Str "Thai")]; [("name", Str "dinner")]].
    split; [reflexivity|]. repeat constructor; eauto.
  - exists []. split; [reflexivity|]. constructor.
Defined.

Lemma nested_get_or_create_reuses_existing_witness :
  let objs := [[("name", Str "Thai")]; [("name", Str "dinner")]] in
  let s := store_existing_tag in
  reuses_existing Tags 1 objs s
    (final_state (create strict_columns 1 data_existing_tag s)) ∧
  (∃ recipe s',
     create strict_columns 1 data_existing_tag s = Ok recipe s' ∧
     associates_existing Tags 1 objs s recipe.1 s' ∧
     ∀ k0, well_kept (manager k0 s')) ∧
  (∀ instance,
     reuses_existing Tags 1 objs s
       (final_state (update strict_columns 1 instance data_existing_tag s)) ∧
     associates_existing Tags 1 objs s instance.1
       (final_state (update strict_columns 1 instance data_existing_tag s))).
Proof.
  cbv zeta.
  destruct (nested_get_or_create_reuses_existing strict_columns Tags 1
              data_existing_tag
              [[("name", Str "Thai")]; [("name", Str "dinner")]]
              store_existing_tag eq_refl) as ([Hc _] & Hu & Hok).
  destruct (Hok store_existing_tag_well_kept data_existing_tag_accepted)
    as [Hcreate Hupdate].
  split_and!.
  - exact Hc.
  - destruct (Recipe_objects_create strict_columns
                (remove "ingredient" (remove "tags" data_existing_tag))
                store_existing_tag) as [recipe s1|e s1] eqn:Hcr.
    + destruct (Hcreate recipe s1 eq_refl) as (s' & H1 & H2 & H3). eauto.
    + vm_compute in Hcr. discriminate.
  - intros instance. split; [apply Hu|apply Hupdate].
Defined.

(** The create of [test_creating_recipe_with_existing_tag] succeeds: the
    stored 'Thai' keeps its row and is associated, and one row is added,
    for 'dinner'. *)
Example create_with_existing_tag :
  ∃ obj s', create strict_columns 1 data_existing_tag store_existing_tag
            = Ok (1, obj) s' ∧
    Recipe_objects s' !! 1
    = Some (mkRecipe 1 (Str "thai prawn curry") (Int 30) (Str "10.00")
              (Str "") (Str "") Null) ∧
    map_to_list (rows (Tag_objects s'))
    ≡ₚ [(1, mkNamed 1 "Thai"); (2, mkNamed 1 "dinner")] ∧
    elements (recipe_tags s') ≡ₚ [(1, 1); (1, 2)].
Proof.
  eexists _, (final_state (create strict_columns 1 data_existing_tag
                             store_existing_tag)).
  split_and!.
  - vm_compute. reflexivity.
  - vm_compute. reflexivity.
  - vm_compute. apply perm_swap.
  - vm_compute. apply perm_swap.
Qed.

(** ** Updating the relations of a recipe *)

Lemma replace_related_nil db k u r s :
  replace_related db k u (Items []) r s =
  Ok () (set_through k (filter (λ p, p.1 ≠ r) (through k s)) s).
Proof. reflexivity. Qed.

(** In every outcome of [update], the tag table and the tag associations
    are those the tag block left. *)
Lemma update_tags_as_replaced db u instance vd s :
  ∃ s1,
    final_state (replace_related db Tags u
                   (from_option id (Items []) (get "tags" vd)) instance.1 s) = s1 ∧
    manager Tags (final_state (update db u instance vd s)) = manager Tags s1 ∧
    through Tags (final_state (update db u instance vd s)) = through Tags s1.
Proof.
  eexists. split; [reflexivity|].
  rewrite update_unfold.
  destruct (replace_related db Tags _ _ _ s) as [[] s1|e s1]; [|done].
  cbn [final_state].
  pose proof (replace_related_frame db Ingredients u
    (from_option id (Items []) (get "ingredient" vd)) instance.1 s1) as Hi.
  cbv zeta in Hi. destruct Hi as (_ & Hi & _).
  destruct (Hi Tags) as [Hm Ht]; [done|].
  destruct (replace_related db Ingredients _ _ _ s1) as [[] s2|e s2];
    cbn [final_state] in *; [|done].
  destruct (assign_and_save_frame db instance
              (remove "ingredient" (remove "tags" vd)) s2) as [Hfr _].
  destruct (Hfr Tags) as [-> ->]. done.
Qed.

(** C3. An update whose payload has [tags] equal to the empty list leaves
    the recipe without any tag association, whatever else the update
    does, and leaves the table of tags exactly as it was. *)
Theorem update_empty_tags_clears db u instance vd s :
  get "tags" vd = Some (Items []) →
  (∀ t, (instance.1, t) ∉ recipe_tags (final_state (update db u instance vd s))) ∧
  Tag_objects (final_state (update db u instance vd s)) = Tag_objects s.
Proof.
  intros Hget.
  destruct (update_tags_as_replaced db u instance vd s) as (s1 & Hs1 & Hm & Ht).
  rewrite Hget in Hs1. simpl from_option in Hs1.
  rewrite replace_related_nil in Hs1. cbn [final_state] in Hs1. subst s1.
  change (recipe_tags ?s) with (through Tags s).
  change (Tag_objects ?s) with (manager Tags s).
  rewrite Hm, Ht, manager_set_through, through_set_through. split; [|done].
  intros t Hin. apply elem_of_filter in Hin as [Hne _]. by apply Hne.
Qed.

Lemma update_empty_tags_clears_witness :
  (∀ t, (1, t) ∉ recipe_tags
     (final_state (update strict_columns 1 (1, sample_recipe 1 "Sample recipe")
                     [("tags", Items [])] store_tagged_recipe))) ∧
  Tag_objects
    (final_state (update strict_columns 1 (1, sample_recipe 1 "Sample recipe")
                    [("tags", Items [])] store_tagged_recipe))
  = Tag_objects store_tagged_recipe.
Proof.
  apply (update_empty_tags_clears strict_columns 1 (1, sample_recipe 1 "Sample recipe")
           [("tags", Items [])] store_tagged_recipe).
  reflexivity.
Defined.

(** A payload with neither relation key: both relations are cleared all
    the same, since the default of each [pop] is the empty list, which is
    not [None]; what is left to do is the assignments and the save. *)
Lemma update_absent_keys_clear db u instance vd s :
  get "tags" vd = None → get "ingredient" vd = None →
  let s' := final_state (update db u instance vd s) in
  (∀ k, manager k s' = manager k s) ∧
  (∀ k x, (instance.1, x) ∉ through k s').
Proof.
  intros Ht Hi. cbv zeta. rewrite update_unfold, Ht, Hi. simpl from_option.
  rewrite !replace_related_nil.
  set (s2 := set_through Ingredients _ _).
  destruct (assign_and_save_frame db instance
              (remove "ingredient" (remove "tags" vd)) s2) as [Hfr _].
  split.
  - intros k. destruct (Hfr k) as [-> _]. unfold s2.
    by rewrite !manager_set_through.
  - intros k x. destruct (Hfr k) as [_ ->]. unfold s2. intros Hin.
    destruct k.
    + rewrite through_set_through_ne, through_set_through in Hin by done.
      apply elem_of_filter in Hin as [Hne _]. by apply Hne.
    + rewrite through_set_through in Hin.
      apply elem_of_filter in Hin as [Hne _]. by apply Hne.
Qed.

(** The relations of [store_tagged_recipe] hold associations of recipe 1
    only. *)
Lemma store_tagged_recipe_through k p :
  p ∈ through k store_tagged_recipe → p.1 = 1.
Proof. destruct k; simpl; intros Hin; apply elem_of_singleton in Hin; by subst. Qed.

(** C1, as the code has it: the payload of [test_partial_update], with
    neither [tags] nor [ingredient], on a recipe carrying a tag and an
    ingredient.  Whatever the database, the recipe has lost both when
    the update returns or raises, the tags and ingredients themselves
    staying; with the database of the tests the update succeeds and
    stores the new title. *)
Theorem update_without_relation_keys_clears db :
  let vd := [("title", Scalar (Str "New Recipe Title"))] in
  let instance := (1, sample_recipe 1 "Original Recipe") in
  to_internal_value accept_all model_required true RecipeDetailSerializer
    [("title", Scalar (Str "New Recipe Title"))] = Some vd ∧
  get "tags" vd = None ∧ get "ingredient" vd = None ∧
  (1, 1) ∈ recipe_tags store_tagged_recipe ∧
  (1, 1) ∈ recipe_ingredient store_tagged_recipe ∧
  (let s' := final_state (update db 1 instance vd store_tagged_recipe) in
   Tag_objects s' = Tag_objects store_tagged_recipe ∧
   Ingredient_objects s' = Ingredient_objects store_tagged_recipe ∧
   recipe_tags s' = ∅ ∧ recipe_ingredient s' = ∅) ∧
  ∃ obj s', update strict_columns 1 instance vd store_tagged_recipe
            = Ok (1, obj) s' ∧
    attr obj "title" = Scalar (Str "New Recipe Title") ∧
    Recipe_objects s' !! 1 = Some (sample_recipe 1 "New Recipe Title") ∧
    Tag_objects s' = Tag_objects store_tagged_recipe ∧
    Ingredient_objects s' = Ingredient_objects store_tagged_recipe ∧
    recipe_tags s' = ∅ ∧ recipe_ingredient s' = ∅.
Proof.
  cbv zeta. do 5 (split; [reflexivity|]). split.
  - destruct (update_absent_keys_clear db 1
                (1, sample_recipe 1 "Original Recipe")
                [("title", Scalar (Str "New Recipe Title"))]
                store_tagged_recipe eq_refl eq_refl) as (Hm & Hthr).
    assert (Hempty : ∀ k,
      through k (final_state
        (update db 1 (1, sample_recipe 1 "Original Recipe")
           [("title", Scalar (Str "New Recipe Title"))] store_tagged_recipe))
      = ∅).
    { intros k. apply set_eq. intros [r x]. split; [|set_solver].
      intros Hin. exfalso. destruct (decide (r = 1)) as [->|Hne].
      - by apply (Hthr k x).
      - apply update_frame_other_recipes in Hin; [|done].
        apply store_tagged_recipe_through in Hin. done. }
    split_and!; [apply (Hm Tags)|apply (Hm Ingredients)|
                 apply (Hempty Tags)|apply (Hempty Ingredients)].
  - eexists _, (final_state
            (update strict_columns 1 (1, sample_recipe 1 "Original Recipe")
               [("title", Scalar (Str "New Recipe Title"))] store_tagged_recipe)).
    split_and!; vm_compute; reflexivity.
Qed.

(** ** Recipe objects in memory *)

Lemma attr_set_item (obj : dict value) a v : attr (set_item a v obj) a = v.
Proof. unfold attr. by rewrite get_set_item. Qed.

Lemma attr_set_item_ne (obj : dict value) a b v :
  a ≠ b → attr (set_item a v obj) b = attr obj b.
Proof. intros Hne. unfold attr. by rewrite get_set_item_ne. Qed.

(** An assignment that goes through, to a name that is none of [id],
    [pk], [user], [user_id], sets the attribute of that name. *)
Lemma setattr_inr obj name v obj' :
  name ∉ identity_keys → setattr obj name v = inr obj' →
  obj' = set_item name v obj.
Proof.
  intros Hid. unfold setattr.
  destruct (decide (name = "pk")) as [->|_].
  { exfalso. apply Hid. set_solver. }
  destruct (decide (name = "user")) as [->|_].
  { exfalso. apply Hid. set_solver. }
  case_decide; [done|]. by intros [= <-].
Qed.



(** Assignments that name none of [id], [pk], [user], [user_id] leave the
    key and the owner of the object as they are. *)
Lemma setattr_each_identity obj vd obj' :
  (∀ k, k ∈ identity_keys → k ∉ vd.*1) →
  setattr_each obj vd = inr obj' →
  attr obj' "id" = attr obj "id" ∧ attr obj' "user_id" = attr obj "user_id".
Proof.
  revert obj. induction vd as [|[k v] vd IH]; intros obj Hid; simpl.
  - by intros [= <-].
  - destruct (setattr obj k v) as [e|obj1] eqn:E; [done|]. intros Hrest.
    assert (Hk : k ∉ identity_keys).
    { intros Hin. apply (Hid k Hin). simpl. left. }
    apply setattr_inr in E as ->; [|done].
    destruct (IH (set_item k v obj)) as [-> ->]; [|done|].
    { intros k0 Hk0 Hin. apply (Hid k0 Hk0). simpl. by right. }
    split; apply attr_set_item_ne; intros ->; apply Hk; set_solver.
Qed.


Lemma attr_load_id instance : attr (load instance) "id" = Scalar (Int instance.1).
Proof. reflexivity. Qed.

Lemma attr_load_user instance :
  attr (load instance) "user_id" = Scalar (Int (recipe_user instance.2)).
Proof. reflexivity. Qed.



(** The close of [update] on validated data that names none of [id],
    [pk], [user], [user_id]: when it returns, the row of the instance's
    key has been replaced, under the instance's owner. *)
Lemma assign_and_save_Ok db instance vd s r s' :
  (∀ k, k ∈ identity_keys → k ∉ vd.*1) →
  assign_and_save db instance vd s = Ok r s' →
  ∃ obj,
    setattr_each (load instance) vd = inr obj ∧ db_error db obj = None ∧
    r = (instance.1, committed db obj) ∧
    Recipe_objects s' =
      <[instance.1 := row_of db (recipe_user instance.2) obj]> (Recipe_objects s) ∧
    Recipe_next_id s' = Recipe_next_id s.
Proof.
  intros Hid. rewrite assign_and_save_unfold.
  destruct (setattr_each (load instance) vd) as [e|obj] eqn:E; [done|].
  destruct (setattr_each_identity _ _ _ Hid E) as [Hpk Hu].
  rewrite attr_load_id in Hpk. rewrite attr_load_user in Hu.
  pose proof (save_post db false obj s) as [_ Hpost]. intros Hsave.
  rewrite Hsave in Hpost. destruct Hpost as (Herr & u & Hkey & Hrec & _ & Hcase).
  rewrite Hu in Hkey. injection Hkey as <-. rewrite Hpk in Hcase.
  destruct r as [pk obj0]. simpl in *.
  destruct Hcase as [([= <-] & -> & Hnext)|(? & _)]; [|done].
  exists obj. by split_and!.
Qed.


Lemma removed_identity (vd : dict value) :
  (∀ k, k ∈ identity_keys → k ∉ vd.*1) →
  ∀ k, k ∈ identity_keys →
       k ∉ (remove "ingredient" (remove "tags" vd)).*1.
Proof.
  intros Hid k Hk Hin. apply (Hid k Hk). by do 2 apply remove_keys in Hin.
Qed.

(** ** Recipe objects built from keyword arguments *)

(** Without [user_id] and [pk] among them, the keyword arguments are
    applied in the order given. *)
Lemma kwargs_in_order (kwargs : dict value) :
  "user_id" ∉ kwargs.*1 → "pk" ∉ kwargs.*1 →
  filter (λ kv, kv.1 ∉ ["user_id"; "pk"]) kwargs ++
  filter (λ kv, kv.1 ∈ ["user_id"; "pk"]) kwargs = kwargs.
Proof.
  intros Hu Hp. induction kwargs as [|[k v] kwargs IH]; [done|].
  simpl in Hu, Hp. apply not_elem_of_cons in Hu as [Hu1 Hu2].
  apply not_elem_of_cons in Hp as [Hp1 Hp2].
  assert (Hk : k ∉ ["user_id"; "pk"]) by set_solver.
  rewrite filter_cons_True by done.
  rewrite (filter_cons_False (λ kv, kv.1 ∈ ["user_id"; "pk"])) by (simpl; tauto).
  simpl. f_equal. by apply IH.
Qed.

Lemma Recipe_init_inr db kwargs obj :
  "user_id" ∉ kwargs.*1 → "pk" ∉ kwargs.*1 →
  Recipe_init db kwargs = inr obj →
  setattr_each (blank db) kwargs = inr obj.
Proof.
  intros Hu Hp. unfold Recipe_init.
  destruct (setattr (blank db) "user" _); [done|].
  case_decide; [|done]. by rewrite kwargs_in_order.
Qed.

(** The owner after assignments that do not name [user_id], each name
    once: the user assigned, or else the owner before. *)
Lemma setattr_each_owner obj l obj' :
  NoDup l.*1 → "user_id" ∉ l.*1 →
  setattr_each obj l = inr obj' →
  attr obj' "user_id" = from_option id (attr obj "user_id") (get "user" l).
Proof.
  revert obj. induction l as [|[k v] l IH]; intros obj Hnd Hno; simpl.
  - by intros [= <-].
  - simpl in Hnd, Hno. apply NoDup_cons in Hnd as [Hk Hnd].
    apply not_elem_of_cons in Hno as [Hne Hno].
    destruct (setattr obj k v) as [e|obj1] eqn:E; [done|]. intros Hrest.
    rewrite (IH obj1 Hnd Hno Hrest).
    destruct (decide (k = "user")) as [->|Hku].
    + rewrite (get_not_elem "user" l) by done. simpl.
      unfold setattr in E. simpl in E.
      destruct v as [[| |]|]; try done; injection E as <-;
        apply attr_set_item.
    + assert (attr obj1 "user_id" = attr obj "user_id") as ->; [|done].
      unfold setattr in E. destruct (decide (k = "pk")).
      { injection E as <-. by apply attr_set_item_ne. }
      rewrite decide_False in E by done. case_decide; [done|].
      injection E as <-. by apply attr_set_item_ne.
Qed.







(** ** Validated data and the owner of a recipe *)

(** [update] never touches the owner: in any outcome the stored owner of
    the recipe is the one the instance was loaded with, provided the
    validated data names none of [id], [pk], [user], [user_id]. *)
Lemma update_keeps_owner db u instance vd s :
  (∀ k, k ∈ identity_keys → k ∉ vd.*1) →
  Recipe_objects s !! instance.1 = Some instance.2 →
  recipe_user <$> Recipe_objects (final_state (update db u instance vd s)) !! instance.1
  = Some (recipe_user instance.2).
Proof.
  intros Hid Hload. rewrite update_unfold.
  pose proof (replace_related_frame db Tags u
    (from_option id (Items []) (get "tags" vd)) instance.1 s) as Ht.
  cbv zeta in Ht. destruct Ht as (_ & _ & Ht).
  destruct (replace_related db Tags _ _ _ s) as [[] s1|e s1];
    cbn [final_state] in *; [|by rewrite Ht, Hload].
  pose proof (replace_related_frame db Ingredients u
    (from_option id (Items []) (get "ingredient" vd)) instance.1 s1) as Hi.
  cbv zeta in Hi. destruct Hi as (_ & _ & Hi).
  destruct (replace_related db Ingredients _ _ _ s1) as [[] s2|e s2];
    cbn [final_state] in *; [|by rewrite Hi, Ht, Hload].
  pose proof (assign_and_save_frame db instance
                (remove "ingredient" (remove "tags" vd)) s2) as [_ Hraise].
  destruct (assign_and_save db instance _ s2) as [r s'|e s'] eqn:E;
    cbn [final_state].
  - apply assign_and_save_Ok in E as (obj & _ & _ & _ & -> & _);
      [|by apply removed_identity].
    by rewrite lookup_insert_eq.
  - by rewrite Hraise, Hi, Ht, Hload.
Qed.

Lemma writable_not_identity ser :
  ser = RecipeSerializer ∨ ser = RecipeDetailSerializer →
  ∀ k, k ∈ identity_keys → k ∉ writable_fields (meta ser).
Proof.
  intros Hser k Hk. unfold identity_keys in Hk.
  repeat (apply elem_of_cons in Hk as [->|Hk]);
    [..|by apply not_elem_of_nil in Hk];
    destruct Hser as [-> | ->];
    apply (bool_decide_unpack _); vm_compute; exact I.
Qed.

Section validation_facts.
Variable db : Backend.
Variable clean : string → scalar → option scalar.
Variable required : string → bool.

(** Validated data has no key besides the fields validated. *)
Lemma validate_nesting_keys partial nested fs data vd :
  validate_nesting clean required partial nested fs data = Some vd →
  vd.*1 ⊆ fs.
Proof.
  revert vd. induction fs as [|f fs IH]; intros vd; simpl.
  - by intros [= <-].
  - destruct (get f nested) as [child|], (get f data) as [[x|l]|]; try done.
    + destruct (mapM _ l) as [l'|]; [|done]. simpl.
      destruct (validate_nesting _ _ _ _ fs data) as [rest|]; [|done].
      intros [= <-]. simpl. specialize (IH rest eq_refl). set_solver.
    + intros H; specialize (IH vd H); set_solver.
    + destruct (clean f x) as [x'|]; [|done]. simpl.
      destruct (validate_nesting _ _ _ _ fs data) as [rest|]; [|done].
      intros [= <-]. simpl. specialize (IH rest eq_refl). set_solver.
    + destruct partial; [|destruct (required f); [done|]];
        intros H; specialize (IH vd H); set_solver.
Qed.

(** Validated data has its keys in the order of the fields, each at most
    once. *)
Lemma validate_nesting_sublist partial nested fs data vd :
  validate_nesting clean required partial nested fs data = Some vd →
  vd.*1 `sublist_of` fs.
Proof.
  revert vd. induction fs as [|f fs IH]; intros vd; simpl.
  - intros [= <-]. constructor.
  - destruct (get f nested) as [child|], (get f data) as [[x|l]|]; try done.
    + destruct (mapM _ l) as [l'|]; [|done]. simpl.
      destruct (validate_nesting _ _ _ _ fs data) as [rest|]; [|done].
      intros [= <-]. simpl. constructor. by apply IH.
    + intros H. constructor. by apply IH.
    + destruct (clean f x) as [x'|]; [|done]. simpl.
      destruct (validate_nesting _ _ _ _ fs data) as [rest|]; [|done].
      intros [= <-]. simpl. constructor. by apply IH.
    + destruct partial; [|destruct (required f); [done|]];
        intros H; constructor; by apply IH.
Qed.


(** A key of the payload that is not a field validated is never read. *)
Lemma validate_nesting_remove partial nested fs key data :
  key ∉ fs →
  validate_nesting clean required partial nested fs (remove key data)
  = validate_nesting clean required partial nested fs data.
Proof.
  intros Hnot. induction fs as [|f fs IH]; [done|].
  apply not_elem_of_cons in Hnot as [Hne Hfs]. simpl.
  rewrite get_remove_ne by done. by rewrite IH.
Qed.

(** C4. An update through either recipe serializer, partial or full,
    with any payload: a [user] key in the payload changes nothing (the
    request is handled exactly as without it, so it does not fail on
    that account), and in every outcome the stored owner of the recipe
    is its owner before. *)
Theorem update_never_changes_owner ser partial u instance data s :
  ser = RecipeSerializer ∨ ser = RecipeDetailSerializer →
  Recipe_objects s !! instance.1 = Some instance.2 →
  save_update db clean required ser partial u instance data s
  = save_update db clean required ser partial u instance (remove "user" data) s ∧
  ∀ o, save_update db clean required ser partial u instance data s = Some o →
       recipe_user <$> Recipe_objects (final_state o) !! instance.1
       = Some (recipe_user instance.2).
Proof.
  intros Hser Hload.
  assert (Hnot : "user" ∉ writable_fields (meta ser))
    by (apply writable_not_identity; [done|set_solver]).
  split.
  - unfold save_update, to_internal_value.
    by rewrite validate_nesting_remove.
  - unfold save_update, to_internal_value. intros o Ho.
    destruct (validate_nesting _ _ _ _ _ data) as [vd|] eqn:Hvd; [|done].
    simpl in Ho. injection Ho as <-.
    apply update_keeps_owner; [|done].
    intros k Hk Hin. apply (writable_not_identity ser Hser k Hk).
    by eapply validate_nesting_keys.
Qed.
End validation_facts.

Lemma update_never_changes_owner_witness :
  let instance := (1, sample_recipe 1 "Original Recipe") in
  let s := set_recipes {[ 1 := sample_recipe 1 "Original Recipe" ]} 2
             store_tagged_recipe in
  save_update strict_columns accept_all model_required RecipeDetailSerializer true 1 instance
    [("user", Scalar (Int 2))] s
  = save_update strict_columns accept_all model_required RecipeDetailSerializer true 1 instance
      (remove "user" [("user", Scalar (Int 2))]) s ∧
  ∀ o, save_update strict_columns accept_all model_required RecipeDetailSerializer true 1
         instance [("user", Scalar (Int 2))] s = Some o →
       recipe_user <$> Recipe_objects (final_state o) !! instance.1
       = Some (recipe_user instance.2).
Proof.
  cbv zeta.
  apply (update_never_changes_owner strict_columns accept_all model_required
           RecipeDetailSerializer true 1
           (1, sample_recipe 1 "Original Recipe") [("user", Scalar (Int 2))]).
  - right. reflexivity.
  - reflexivity.
Defined.

(** ** Failure in the middle of [create] and [update] *)






(** What the failed create of the counterexample leaves: the recipe it
    inserted, with its required columns, the tag 'dinner' it made, and
    the association of the two. *)
Example failed_create_leaves_writes :
  ∃ s', create strict_columns 1 data_new_then_duplicate store_duplicate_tags
        = Raise MultipleObjectsReturned s' ∧
    Recipe_objects s' !! 2
    = Some (mkRecipe 1 (Str "thai prawn curry") (Int 30) (Str "10.00")
              (Str "") (Str "") Null) ∧
    rows (Tag_objects s') !! 4 = Some (mkNamed 1 "dinner") ∧
    elements (recipe_tags s') ≡ₚ [(1, 3); (2, 4)].
Proof.
  eexists. split_and!; [vm_compute; reflexivity..|].
  vm_compute. reflexivity.
Qed.

(** Two tags of one name are within reach of the API: renaming the tag
    'Asian' of user 1 to 'Thai', next to the 'Thai' the user already has,
    gives [store_duplicate_tags]. *)
Example duplicate_names_by_rename :
  named_update accept_all model_required Tags true 1 2 [("name", Str "Thai")]
    (set_manager Tags
       (table [(1, mkNamed 1 "Thai"); (2, mkNamed 1 "Asian");
               (3, mkNamed 1 "Dessert")] 4)
       store_duplicate_tags)
  = (HTTP_200_OK, store_duplicate_tags).
Proof. vm_compute. reflexivity. Qed.

(** ** The fields on the wire *)

(** C9 as stated fails: the recipe serializer has no field
    [ingredients]. *)
Lemma recipe_fields_not_as_claimed :
  ¬ (∀ f, f ∈ fields (meta RecipeSerializer) ↔
          f ∈ ["id"; "title"; "time_minutes"; "price"; "link"; "tags";
               "ingredients"]).
Proof.
  intros Hclaim. destruct (Hclaim "ingredients") as [_ Hin].
  assert (Hnot : "ingredients" ∉ fields (meta RecipeSerializer))
    by (apply (bool_decide_unpack _); vm_compute; exact I).
  apply Hnot, Hin. apply (bool_decide_unpack _). vm_compute. exact I.
Qed.

(** C9, as the code has it: the recipe serializer's fields are [id]
    (read-only), [title], [time_minutes], [price], [link], [tags] and
    [ingredient], the nested relations being [tags] and [ingredient]; the
    detail serializer has these and [description].  The wire form of a
    recipe has exactly these keys, with the related objects under [tags]
    and [ingredient]. *)
Theorem recipe_wire_fields :
  fields (meta RecipeSerializer)
  = ["id"; "title"; "time_minutes"; "price"; "link"; "tags"; "ingredient"] ∧
  read_only_fields (meta RecipeSerializer) = ["id"] ∧
  (declared RecipeSerializer).*1 = ["tags"; "ingredient"] ∧
  fields (meta RecipeDetailSerializer)
  = fields (meta RecipeSerializer) ++ ["description"] ∧
  read_only_fields (meta RecipeDetailSerializer) = ["id"] ∧
  (declared RecipeDetailSerializer).*1 = ["tags"; "ingredient"] ∧
  ∀ instance s,
    (to_representation RecipeSerializer instance s).*1
    = ["id"; "title"; "time_minutes"; "price"; "link"; "tags"; "ingredient"] ∧
    (to_representation RecipeDetailSerializer instance s).*1
    = ["id"; "title"; "time_minutes"; "price"; "link"; "tags"; "ingredient";
       "description"] ∧
    ∀ ser, ser = RecipeSerializer ∨ ser = RecipeDetailSerializer →
      get "id" (to_representation ser instance s) = Some (Scalar (Int instance.1)) ∧
      get "tags" (to_representation ser instance s)
      = Some (Items (represent_object (meta TagSerializer) <$>
                       related_rows Tags instance.1 s)) ∧
      get "ingredient" (to_representation ser instance s)
      = Some (Items (represent_object (meta IngredientSerializer) <$>
                       related_rows Ingredients instance.1 s)) ∧
      get "ingredients" (to_representation ser instance s) = None.
Proof.
  split_and!; try reflexivity.
  intros instance s. split_and!; try reflexivity.
  intros ser [-> | ->]; split_and!; reflexivity.
Qed.

(** ** The keyword arguments of the nested lookups *)

Lemma writable_fields_named k :
  writable_fields (meta (named_serializer k)) = ["name"].
Proof. destruct k; reflexivity. Qed.

Section nested_objects.
Variable db : Backend.
Variable clean : string → scalar → option scalar.
Variable required : string → bool.

(** Validation of a nested object reads its [name] and nothing else. *)
Lemma validate_object_named k partial raw :
  validate_object clean required partial (meta (named_serializer k)) raw =
  match get "name" raw with
  | Some x => x' ← clean "name" x; Some [("name", x')]
  | None => if partial then Some [] else if required "name" then None else Some []
  end.
Proof.
  unfold validate_object. rewrite writable_fields_named. simpl.
  destruct (get "name" raw) as [x|]; [|by destruct partial, (required "name")].
  by destruct (clean "name" x).
Qed.

(** C10, as the code has it.  A nested tag or ingredient object is
    validated from its [name] alone: an [id] the client supplies is
    ignored, the validated object has no key but [name], and it has
    that key whenever the client gave a name or the validation is a
    full one of a model that requires the name.  The lookup for a
    validated name is by the requesting user and that name. *)
Theorem nested_lookup_by_name k partial raw obj :
  validate_object clean required partial (meta (named_serializer k)) raw
    = Some obj →
  validate_object clean required partial (meta (named_serializer k))
    (remove "id" raw) = Some obj ∧
  (∀ x, validate_object clean required partial (meta (named_serializer k))
          (set_item "id" x raw) = Some obj) ∧
  (obj = [] ∨ ∃ x, obj = [("name", x)]) ∧
  (is_Some (get "name" raw) ∨ (partial = false ∧ required "name" = true) →
   ∃ x, obj = [("name", x)]) ∧
  ∀ n, obj = [("name", Str n)] →
    looked_up_by_name obj ∧
    ∀ u s, get_or_create db k u obj s =
      match candidates u (None, Some n) (manager k s) with
      | [] => (pk ← objects_create db k u (None, Some n); mret (pk, true)) s
      | [(pk, _)] => Ok (pk, false) s
      | _ => Raise MultipleObjectsReturned s
      end.
Proof.
  intros Hval.
  assert (Hid : ∀ raw', get "name" raw' = get "name" raw →
            validate_object clean required partial
              (meta (named_serializer k)) raw' = Some obj).
  { intros raw' Hget. rewrite validate_object_named, Hget.
    by rewrite <- (validate_object_named k). }
  rewrite validate_object_named in Hval. split_and!.
  - apply Hid. by apply get_remove_ne.
  - intros x. apply Hid. clear. induction raw as [|[k0 v] raw IH]; [done|].
    simpl. destruct (decide (k0 = "id")) as [->|Hne]; simpl; [done|].
    by rewrite IH.
  - destruct (get "name" raw) as [x|].
    + destruct (clean "name" x) as [x'|]; [|done]. injection Hval as <-. eauto.
    + destruct partial; [|destruct (required "name"); [done|]];
        injection Hval as <-; by left.
  - intros [[x Hx]|[-> Hreq]].
    + rewrite Hx in Hval. destruct (clean "name" x) as [x'|]; [|done].
      injection Hval as <-. eauto.
    + rewrite Hreq in Hval. destruct (get "name" raw) as [x|]; [|done].
      destruct (clean "name" x) as [x'|]; [|done]. injection Hval as <-. eauto.
  - intros n ->. split; [by exists n|]. reflexivity.
Qed.
End nested_objects.

Lemma nested_lookup_by_name_witness :
  let obj := [("name", Str "Thai")] in
  let raw := [("id", Int 7); ("name", Str "Thai")] in
  validate_object accept_all model_required false (meta (named_serializer Tags))
    (remove "id" raw) = Some obj ∧
  (∀ x, validate_object accept_all model_required false
          (meta (named_serializer Tags)) (set_item "id" x raw) = Some obj) ∧
  (obj = [] ∨ ∃ x, obj = [("name", x)]) ∧
  (is_Some (get "name" raw) ∨ (false = false ∧ model_required "name" = true) →
   ∃ x, obj = [("name", x)]) ∧
  ∀ n, obj = [("name", Str n)] →
    looked_up_by_name obj ∧
    ∀ u s, get_or_create strict_columns Tags u obj s =
      match candidates u (None, Some n) (manager Tags s) with
      | [] => (pk ← objects_create strict_columns Tags u (None, Some n); mret (pk, true)) s
      | [(pk, _)] => Ok (pk, false) s
      | _ => Raise MultipleObjectsReturned s
      end.
Proof.
  cbv zeta.
  apply (nested_lookup_by_name strict_columns accept_all model_required Tags false
           [("id", Int 7); ("name", Str "Thai")] [("name", Str "Thai")]).
  reflexivity.
Defined.

(** C10 as stated fails on a partial update: a nested object without a
    name passes validation and is looked up by the requesting user
    alone, here finding the one tag the user has. *)
Lemma nested_lookup_by_user_alone :
  ¬ (∀ partial raw obj,
       validate_object accept_all model_required partial
         (meta (named_serializer Tags)) raw = Some obj →
       looked_up_by_name obj) ∧
  save_update strict_columns accept_all model_required RecipeDetailSerializer true 1
    (1, sample_recipe 1 "Sample recipe") [("tags", Items [[]])] store_existing_tag
  = Some (update strict_columns 1 (1, sample_recipe 1 "Sample recipe") [("tags", Items [[]])]
            store_existing_tag) ∧
  get_or_create strict_columns Tags 1 [] store_existing_tag = Ok (1, false) store_existing_tag ∧
  elements (recipe_tags
    (final_state (update strict_columns 1 (1, sample_recipe 1 "Sample recipe")
                    [("tags", Items [[]])] store_existing_tag))) = [(1, 1)].
Proof.
  split_and!; [|vm_compute; reflexivity..].
  intros Hclaim. destruct (Hclaim true [] [] eq_refl) as [n Hn]. discriminate.
Qed.

(** ** Associations stay within one user *)

Lemma same_owner_grow s s' :
  Recipe_objects s' = Recipe_objects s →
  (∀ k, rows (manager k s) ⊆ rows (manager k s')) →
  (∀ k, through k s' ⊆ through k s) →
  same_owner s → same_owner s'.
Proof.
  intros Hrec Hrows Hthr Hinv k rpk pk Hin.
  destruct (Hinv k rpk pk (Hthr k _ Hin)) as (r & t & Hr & Ht & Hu).
  exists r, t. rewrite Hrec. split_and!; [done| |done].
  by eapply lookup_weaken.
Qed.

Lemma same_owner_add k r pk rec t s :
  Recipe_objects s !! r = Some rec → rows (manager k s) !! pk = Some t →
  row_user t = recipe_user rec →
  same_owner s →
  same_owner (set_through k ({[ (r, pk) ]} ∪ through k s) s).
Proof.
  intros Hrec Hrow Hu Hinv k' rpk' pk' Hin.
  rewrite recipes_set_through, manager_set_through.
  destruct (decide (k' = k)) as [->|Hne].
  - rewrite through_set_through in Hin.
    apply elem_of_union in Hin as [Hin|Hin]; [|by apply Hinv].
    apply elem_of_singleton in Hin. injection Hin as -> ->. eauto.
  - rewrite through_set_through_ne in Hin by done. by apply Hinv.
Qed.

Lemma same_owner_save pk r r' s :
  Recipe_objects s !! pk = Some r → recipe_user r' = recipe_user r →
  same_owner s →
  same_owner (set_recipes (<[pk := r']> (Recipe_objects s)) (Recipe_next_id s) s).
Proof.
  intros Hrow Hu Hinv k rpk pk' Hin. rewrite through_set_recipes in Hin.
  destruct (Hinv k rpk pk' Hin) as (r0 & t & Hr0 & Ht & Hut).
  rewrite manager_set_recipes. simpl.
  destruct (decide (rpk = pk)) as [->|Hne].
  - exists r', t. rewrite lookup_insert_eq. split_and!; [done|done|congruence].
  - exists r0, t. by rewrite lookup_insert_ne.
Qed.

(** The row a successful [get_or_create] returns is a row of the
    requesting user. *)
Lemma get_or_create_Ok_row db k u kw s pk created s' :
  get_or_create db k u kw s = Ok (pk, created) s' →
  ∃ t, rows (manager k s') !! pk = Some t ∧ row_user t = u.
Proof.
  intros E. apply get_or_create_Ok in E as (q & _ & _ & _ & _ & Hc).
  destruct created.
  - destruct Hc as (_ & _ & _ & ->). eexists. by rewrite lookup_insert_eq.
  - destruct Hc as (-> & row & Hc).
    apply candidates_singleton in Hc as (Hrow & (Hu & _) & _). eauto.
Qed.

Lemma get_or_create_same_owner db k u kw s :
  same_owner s → same_owner (final_state (get_or_create db k u kw s)).
Proof.
  destruct (get_or_create_frame db k u kw s) as (H1 & H2 & H3 & H4).
  apply same_owner_grow; [done| |].
  - intros k'. destruct (decide (k' = k)) as [->|Hne]; [done|].
    by rewrite H4.
  - intros k'. by rewrite H2.
Qed.

Lemma get_or_create_each_same_owner db k u r rec objs s :
  Recipe_objects s !! r = Some rec → recipe_user rec = u →
  same_owner s →
  same_owner (final_state (get_or_create_each db k u objs r s)).
Proof.
  revert s. induction objs as [|obj objs IH]; intros s Hrec Hu Hinv; [done|].
  rewrite get_or_create_each_cons.
  pose proof (get_or_create_same_owner db k u obj s Hinv) as Hinv1.
  destruct (get_or_create_frame db k u obj s) as (_ & _ & Hrec1 & _).
  destruct (get_or_create db k u obj s) as [[pk created] s1|e s1] eqn:E;
    cbn [final_state] in *; [|done].
  apply get_or_create_Ok_row in E as (t & Ht & Hut).
  apply IH.
  - by rewrite recipes_set_through, Hrec1.
  - done.
  - eapply same_owner_add; [by rewrite Hrec1|done|congruence|done].
Qed.

Lemma nested_get_or_create_same_owner db k u r rec v s :
  Recipe_objects s !! r = Some rec → recipe_user rec = u →
  same_owner s →
  same_owner (final_state (nested_get_or_create db k u v r s)).
Proof.
  intros Hrec Hu Hinv. destruct v as [x|objs].
  - assert (final_state (nested_get_or_create db k u (Scalar x) r s) = s) as ->;
      [|done].
    unfold nested_get_or_create, for_each_in.
    destruct x as [| |[|a str]]; reflexivity.
  - rewrite nested_get_or_create_Items.
    by eapply get_or_create_each_same_owner.
Qed.

Lemma replace_related_same_owner db k u r rec v s :
  Recipe_objects s !! r = Some rec → recipe_user rec = u →
  same_owner s →
  same_owner (final_state (replace_related db k u v r s)).
Proof.
  intros Hrec Hu Hinv. unfold replace_related.
  destruct (is_not_None v); [|done]. rewrite bind_unfold.
  destruct (clear_frame k r s) as (s1 & -> & Ht & Hto & Hm & Hr).
  eapply nested_get_or_create_same_owner; [by rewrite Hr|done|].
  eapply same_owner_grow; [done| | |done].
  - intros k'. by rewrite Hm.
  - intros k'. destruct (decide (k' = k)) as [->|Hne].
    + rewrite Ht. intros p Hp. by apply elem_of_filter in Hp as [_ Hp].
    + by rewrite Hto.
Qed.

(** [update] by the owner of the recipe keeps every association within
    one user, in every outcome, when the validated data names none of
    [id], [pk], [user], [user_id]. *)
Lemma update_same_owner db u instance vd s :
  (∀ k, k ∈ identity_keys → k ∉ vd.*1) →
  Recipe_objects s !! instance.1 = Some instance.2 →
  recipe_user instance.2 = u →
  same_owner s →
  same_owner (final_state (update db u instance vd s)).
Proof.
  intros Hid Hload Hu Hinv. rewrite update_unfold.
  pose proof (replace_related_same_owner db Tags u instance.1 instance.2
    (from_option id (Items []) (get "tags" vd)) s Hload Hu Hinv) as Hinv1.
  destruct (replace_related_frame db Tags u
    (from_option id (Items []) (get "tags" vd)) instance.1 s) as (_ & _ & Hr1).
  destruct (replace_related db Tags _ _ _ s) as [[] s1|e s1];
    cbn [final_state] in *; [|done].
  rewrite <- Hr1 in Hload.
  pose proof (replace_related_same_owner db Ingredients u instance.1 instance.2
    (from_option id (Items []) (get "ingredient" vd)) s1 Hload Hu Hinv1)
    as Hinv2.
  destruct (replace_related_frame db Ingredients u
    (from_option id (Items []) (get "ingredient" vd)) instance.1 s1)
    as (_ & _ & Hr2).
  destruct (replace_related db Ingredients _ _ _ s1) as [[] s2|e s2];
    cbn [final_state] in *; [|done].
  rewrite <- Hr2 in Hload.
  pose proof (assign_and_save_frame db instance
                (remove "ingredient" (remove "tags" vd)) s2) as [Hfr Hraise].
  cbv zeta in Hfr.
  destruct (assign_and_save db instance _ s2) as [r s'|e s'] eqn:E;
    cbn [final_state] in *.
  - apply assign_and_save_Ok in E as (obj & _ & _ & _ & Hrec & _);
      [|by apply removed_identity].
    intros k rpk pk Hin. destruct (Hfr k) as [Hm Hthr]. rewrite Hthr in Hin.
    destruct (Hinv2 k rpk pk Hin) as (r0 & t & Hr0 & Ht & Hut).
    rewrite Hm, Hrec. destruct (decide (rpk = instance.1)) as [->|Hne].
    + eexists _, t. rewrite lookup_insert_eq. split_and!; [done|done|].
      simpl. congruence.
    + exists r0, t. by rewrite lookup_insert_ne.
  - eapply same_owner_grow; [done| | |done]; intros k;
      destruct (Hfr k) as [Hm Hthr]; by rewrite ?Hm, ?Hthr.
Qed.

(** [create] for a recipe owned by the requesting user keeps every
    association within one user, in every outcome. *)
Lemma create_same_owner db u vd s :
  NoDup vd.*1 → "user_id" ∉ vd.*1 → "pk" ∉ vd.*1 →
  get "user" vd = Some (Scalar (Int u)) →
  same_owner s →
  same_owner (final_state (create db u vd s)).
Proof.
  intros Hnd Hnu Hnp Huser Hinv. rewrite create_unfold.
  pose proof (Recipe_objects_create_post db
                (remove "ingredient" (remove "tags" vd)) s) as [Hfr Hrec].
  cbv zeta in Hfr.
  destruct (Recipe_objects_create db _ s) as [recipe s1|e s1];
    cbn [final_state] in Hfr.
  2:{ cbn [final_state]. eapply same_owner_grow; [done| | |done];
        intros k; destruct (Hfr k) as [Hm Hthr]; by rewrite ?Hm, ?Hthr. }
  destruct Hrec as (Hnone & obj & u' & Hinit & _ & Hkey & Hins & _).
  assert (u' = u) as ->.
  { apply Recipe_init_inr in Hinit;
      [|intros Hin; by do 2 apply remove_keys in Hin..].
    apply setattr_each_owner in Hinit;
      [|by do 2 apply remove_NoDup|intros Hin; by do 2 apply remove_keys in Hin].
    rewrite !get_remove_ne, Huser in Hinit by done. simpl in Hinit.
    rewrite Hinit in Hkey. simpl in Hkey. congruence. }
  assert (Hinv1 : same_owner s1).
  { intros k rpk pk Hin. destruct (Hfr k) as [Hm Hthr]. rewrite Hthr in Hin.
    destruct (Hinv k rpk pk Hin) as (r & t & Hr & Ht & Hut).
    exists r, t. rewrite Hm, Hins. split_and!; [|done|done].
    rewrite lookup_insert_ne; [done|]. intros <-. congruence. }
  assert (Hload : Recipe_objects s1 !! recipe.1 = Some (row_of db u obj))
    by by rewrite Hins, lookup_insert_eq.
  pose proof (nested_get_or_create_same_owner db Tags u recipe.1 _
    (from_option id (Items []) (get "tags" vd)) s1 Hload eq_refl Hinv1) as Hinv2.
  destruct (nested_get_or_create_frame db Tags u
    (from_option id (Items []) (get "tags" vd)) recipe.1 s1) as (_ & _ & _ & Hr2).
  destruct (nested_get_or_create db Tags _ _ _ s1) as [[] s2|e s2];
    cbn [final_state] in *; [|done].
  rewrite <- Hr2 in Hload.
  pose proof (nested_get_or_create_same_owner db Ingredients u recipe.1 _
    (from_option id (Items []) (get "ingredient" vd)) s2 Hload eq_refl Hinv2)
    as Hinv3.
  by destruct (nested_get_or_create db Ingredients _ _ _ s2) as [[] s3|e s3].
Qed.


(** ** The API layer: lists *)

Lemma elem_of_join_in a ids qs r :
  r ∈ join_in a ids qs ↔ r ∈ qs ∧ ∃ t, t ∈ ids ∧ (r.1, t) ∈ a.
Proof.
  unfold join_in. rewrite list_elem_of_bind. split.
  - intros (r0 & Hin & Hr0). apply list_elem_of_bind in Hin as (p & Hin & Hp).
    destruct (decide (p.1 = r0.1 ∧ p.2 ∈ ids)) as [[H1 H2]|]; [|by apply not_elem_of_nil in Hin].
    apply list_elem_of_singleton in Hin as ->. split; [done|].
    exists p.2. split; [done|]. apply elem_of_elements in Hp.
    rewrite <- H1. by destruct p.
  - intros (Hin & t & Ht & Ha). exists r. split; [|done].
    apply list_elem_of_bind. exists (r.1, t). split; [|by apply elem_of_elements].
    rewrite decide_True by done. apply list_elem_of_here.
Qed.

Lemma elem_of_join_assigned u a recipes qs t :
  t ∈ join_assigned u a recipes qs ↔
  t ∈ qs ∧ ∃ rpk, (rpk, t.1) ∈ a ∧ owned_recipe u recipes rpk.
Proof.
  unfold join_assigned. rewrite list_elem_of_bind. split.
  - intros (t0 & Hin & Ht0). apply list_elem_of_bind in Hin as (p & Hin & Hp).
    destruct (decide (p.2 = t0.1 ∧ owned_recipe u recipes p.1)) as [[H1 H2]|];
      [|by apply not_elem_of_nil in Hin].
    apply list_elem_of_singleton in Hin as ->. split; [done|].
    exists p.1. split; [|done]. apply elem_of_elements in Hp.
    rewrite <- H1. by destruct p.
  - intros (Hin & rpk & Ha & Hown). exists t. split; [|done].
    apply list_elem_of_bind. exists (rpk, t.1). split; [|by apply elem_of_elements].
    rewrite decide_True by done. apply list_elem_of_here.
Qed.

(** What a recipe has to satisfy to be in the list of user [u] under the
    query [q]. *)
Lemma elem_of_recipe_queryset u q s pk r :
  (pk, r) ∈ recipe_queryset u q s ↔
  Recipe_objects s !! pk = Some r ∧ recipe_user r = u ∧
  (∀ ids, q_tags q = Some ids → ∃ t, t ∈ ids ∧ (pk, t) ∈ recipe_tags s) ∧
  (∀ ids, q_ingredients q = Some ids →
     ∃ i, i ∈ ids ∧ (pk, i) ∈ recipe_ingredient s).
Proof.
  unfold recipe_queryset. rewrite merge_sort_Permutation.
  rewrite elem_of_remove_dups, list_elem_of_filter. simpl.
  destruct (q_tags q) as [tids|], (q_ingredients q) as [iids|]; simpl;
    rewrite ?elem_of_join_in, elem_of_map_to_list; simpl.
  - split.
    + intros (Hu & (Hrow & t & Ht & Ha) & i & Hi & Hb). split_and!; try done.
      * intros ids [= <-]. eauto.
      * intros ids [= <-]. eauto.
    + intros (Hrow & Hu & Ht & Hi).
      destruct (Ht tids eq_refl) as (t & ? & ?).
      destruct (Hi iids eq_refl) as (i & ? & ?). eauto 10.
  - split.
    + intros (Hu & Hrow & t & Ht & Ha). split_and!; try done.
      intros ids [= <-]. eauto.
    + intros (Hrow & Hu & Ht & _).
      destruct (Ht tids eq_refl) as (t & ? & ?). eauto 10.
  - split.
    + intros (Hu & Hrow & i & Hi & Hb). split_and!; try done.
      intros ids [= <-]. eauto.
    + intros (Hrow & Hu & _ & Hi).
      destruct (Hi iids eq_refl) as (i & ? & ?). eauto 10.
  - naive_solver.
Qed.

(** C7. The recipe list of a user under a [tags] filter, an
    [ingredients] filter or both holds exactly the user's recipes that
    have at least one of the listed tags and at least one of the listed
    ingredients (each condition only when its filter is given), and holds
    each of them once. *)
Theorem recipe_list_filtered u q s :
  NoDup (recipe_queryset u q s).*1 ∧
  ∀ pk r,
    (pk, r) ∈ recipe_queryset u q s ↔
    Recipe_objects s !! pk = Some r ∧ recipe_user r = u ∧
    (∀ ids, q_tags q = Some ids → ∃ t, t ∈ ids ∧ (pk, t) ∈ recipe_tags s) ∧
    (∀ ids, q_ingredients q = Some ids →
       ∃ i, i ∈ ids ∧ (pk, i) ∈ recipe_ingredient s).
Proof.
  split; [|apply elem_of_recipe_queryset].
  apply NoDup_fmap_2_strong.
  - intros [pk1 r1] [pk2 r2] H1 H2 Heq. simpl in Heq. subst pk2.
    apply elem_of_recipe_queryset in H1 as (H1 & _).
    apply elem_of_recipe_queryset in H2 as (H2 & _). congruence.
  - unfold recipe_queryset. rewrite merge_sort_Permutation.
    apply NoDup_remove_dups.
Qed.

Lemma elem_of_named_queryset k u assigned_only s pk t :
  (pk, t) ∈ named_queryset k u assigned_only s ↔
  rows (manager k s) !! pk = Some t ∧ row_user t = u ∧
  (assigned_only = true →
   ∃ rpk, (rpk, pk) ∈ through k s ∧ owned_recipe u (Recipe_objects s) rpk).
Proof.
  unfold named_queryset. rewrite merge_sort_Permutation.
  rewrite elem_of_remove_dups.
  destruct assigned_only; rewrite ?elem_of_join_assigned, list_elem_of_filter,
    elem_of_map_to_list; simpl; naive_solver.
Qed.

(** C8. The tag list, and the ingredient list, of a user with
    [assigned_only] holds exactly the user's tags (ingredients) that are
    associated with at least one recipe owned by that user, and holds
    each of them once. *)
Theorem assigned_only_list k u s :
  NoDup (named_queryset k u true s).*1 ∧
  ∀ pk t,
    (pk, t) ∈ named_queryset k u true s ↔
    rows (manager k s) !! pk = Some t ∧ row_user t = u ∧
    ∃ rpk r, (rpk, pk) ∈ through k s ∧
             Recipe_objects s !! rpk = Some r ∧ recipe_user r = u.
Proof.
  split.
  - apply NoDup_fmap_2_strong.
    + intros [pk1 t1] [pk2 t2] H1 H2 Heq. simpl in Heq. subst pk2.
      apply elem_of_named_queryset in H1 as (H1 & _).
      apply elem_of_named_queryset in H2 as (H2 & _). congruence.
    + unfold named_queryset. rewrite merge_sort_Permutation.
      apply NoDup_remove_dups.
  - intros pk t. rewrite elem_of_named_queryset. unfold owned_recipe.
    naive_solver.
Qed.

(** ** The API layer keeps associations within one user *)

Lemma get_recipe_Some u pk s r :
  get_recipe u pk s = Some r ↔ Recipe_objects s !! pk = Some r ∧ recipe_user r = u.
Proof. unfold get_recipe. by rewrite map_lookup_filter_Some. Qed.

Lemma get_named_Some k u pk s t :
  get_named k u pk s = Some t ↔
  rows (manager k s) !! pk = Some t ∧ row_user t = u.
Proof. unfold get_named. by rewrite map_lookup_filter_Some. Qed.

Lemma recipe_destroy_same_owner u pk s :
  same_owner s → same_owner (recipe_destroy u pk s).2.
Proof.
  intros Hinv. unfold recipe_destroy. destruct (get_recipe u pk s); [|done].
  intros k rpk pk' Hin.
  assert (Hin' : (rpk, pk') ∈ through k s ∧ rpk ≠ pk).
  { destruct k; simpl in Hin; apply elem_of_filter in Hin as [Hne Hin]; done. }
  destruct Hin' as [Hin' Hne].
  destruct (Hinv k rpk pk' Hin') as (r0 & t & Hr & Ht & Hu).
  exists r0, t. simpl. rewrite lookup_delete_ne by done.
  split_and!; [done| |done]. by destruct k.
Qed.

Lemma named_destroy_same_owner k u pk s :
  same_owner s → same_owner (named_destroy k u pk s).2.
Proof.
  intros Hinv. unfold named_destroy. destruct (get_named k u pk s); [|done].
  cbn [snd]. intros k' rpk pk' Hin.
  rewrite recipes_set_through, recipes_set_manager, manager_set_through.
  destruct (decide (k' = k)) as [->|Hne].
  - rewrite through_set_through in Hin.
    apply elem_of_filter in Hin as [Hpk Hin]. simpl in Hpk.
    destruct (Hinv k rpk pk' Hin) as (r & t0 & Hr & Ht & Hu).
    exists r, t0. rewrite manager_set_manager. simpl.
    by rewrite lookup_delete_ne.
  - rewrite through_set_through_ne, through_set_manager in Hin by done.
    rewrite manager_set_manager_ne by done. by apply Hinv.
Qed.

Section api_same_owner.
Variable db : Backend.
Variable clean : string → scalar → option scalar.
Variable required : string → bool.

Lemma named_update_same_owner k partial u pk data s :
  same_owner s → same_owner (named_update clean required k partial u pk data s).2.
Proof.
  intros Hinv. unfold named_update.
  destruct (get_named k u pk s) as [t|] eqn:Hget; [|done].
  apply get_named_Some in Hget as [Hrow Hu].
  destruct (validate_object _ _ _ _ data) as [vd|]; [|done].
  set (t' := match get "name" vd with Some (Str n) => mkNamed (row_user t) n
             | _ => t end).
  assert (Hu' : row_user t' = row_user t).
  { unfold t'. by destruct (get "name" vd) as [[| |]|]. }
  cbn [snd]. intros k' rpk pk' Hin.
  rewrite through_set_manager in Hin. rewrite recipes_set_manager.
  destruct (Hinv k' rpk pk' Hin) as (r & t0 & Hr & Ht0 & Hut).
  destruct (decide (k' = k)) as [->|Hne].
  - rewrite manager_set_manager. simpl.
    destruct (decide (pk' = pk)) as [->|Hpk].
    + exists r, t'. rewrite lookup_insert_eq. split_and!; [done|done|].
      congruence.
    + exists r, t0. by rewrite lookup_insert_ne.
  - rewrite manager_set_manager_ne by done. eauto.
Qed.

Lemma recipe_update_same_owner partial u pk data s :
  same_owner s → same_owner (recipe_update db clean required partial u pk data s).2.
Proof.
  intros Hinv. unfold recipe_update.
  destruct (get_recipe u pk s) as [r|] eqn:Hget; [|done].
  apply get_recipe_Some in Hget as [Hrow Hu].
  unfold save_update, to_internal_value.
  destruct (validate_nesting _ _ _ _ _ data) as [vd|] eqn:Hvd; [|done].
  simpl.
  assert (Hinv' : same_owner (final_state (update db u (pk, r) vd s))).
  { apply update_same_owner; try done.
    intros k Hk Hin. eapply validate_nesting_keys in Hin; [|done].
    revert Hin. apply writable_not_identity; [by right|done]. }
  by destruct (update db u (pk, r) vd s).
Qed.

(** A create saved with the requesting user as owner. *)
Lemma save_create_same_owner ser u data s o :
  ser = RecipeSerializer ∨ ser = RecipeDetailSerializer →
  same_owner s →
  save_create db clean required ser u [("user", Scalar (Int u))] data s = Some o →
  same_owner (final_state o).
Proof.
  intros Hser Hinv. unfold save_create.
  destruct (to_internal_value _ _ _ _ data) as [vd|] eqn:Hvd; [|done]. simpl.
  intros [= <-].
  assert (Hsub : vd.*1 `sublist_of` writable_fields (meta ser))
    by (eapply validate_nesting_sublist; exact Hvd).
  assert (Hkeys : ∀ k, k ∈ (set_item "user" (Scalar (Int u)) vd).*1 →
                       k = "user" ∨ k ∈ writable_fields (meta ser)).
  { intros k Hk. destruct (decide ("user" ∈ vd.*1)) as [Hin|Hin].
    - rewrite set_item_keys_in in Hk by done. right.
      by eapply elem_of_sublist.
    - rewrite set_item_keys_notin in Hk by done.
      apply elem_of_app in Hk as [Hk|Hk].
      + right. by eapply elem_of_sublist.
      + left. by apply list_elem_of_singleton in Hk. }
  apply create_same_owner; [| | |apply get_set_item|done].
  - apply set_item_NoDup. eapply sublist_NoDup; [|exact Hsub].
    destruct Hser as [-> | ->]; apply (bool_decide_unpack _); vm_compute;
      exact I.
  - intros Hk. destruct (Hkeys _ Hk) as [|Hw]; [done|]. revert Hw.
    apply writable_not_identity; [done|]. unfold identity_keys. set_solver.
  - intros Hk. destruct (Hkeys _ Hk) as [|Hw]; [done|]. revert Hw.
    apply writable_not_identity; [done|]. unfold identity_keys. set_solver.
Qed.

Lemma recipe_create_same_owner u data s :
  same_owner s → same_owner (recipe_create db clean required u data s).2.
Proof.
  intros Hinv. unfold recipe_create.
  destruct (save_create db clean required RecipeDetailSerializer u
              [("user", Scalar (Int u))] data s) as [o|] eqn:Hsave; [|done].
  apply save_create_same_owner in Hsave; [|by right|done].
  by destruct o.
Qed.
End api_same_owner.

(** ** The API layer: isolation of users *)

Lemma get_recipe_other u1 u2 pk r s :
  u1 ≠ u2 → Recipe_objects s !! pk = Some r → recipe_user r = u1 →
  get_recipe u2 pk s = None.
Proof.
  intros Hne Hrow Hu. unfold get_recipe. apply map_lookup_filter_None.
  right. intros r' Hr'. simpl. congruence.
Qed.

Lemma get_named_other k u1 u2 pk t s :
  u1 ≠ u2 → rows (manager k s) !! pk = Some t → row_user t = u1 →
  get_named k u2 pk s = None.
Proof.
  intros Hne Hrow Hu. unfold get_named. apply map_lookup_filter_None.
  right. intros t' Ht'. simpl. congruence.
Qed.

Lemma elem_of_related_rows k rpk s pk t :
  (pk, t) ∈ related_rows k rpk s ↔
  rows (manager k s) !! pk = Some t ∧ (rpk, pk) ∈ through k s.
Proof.
  unfold related_rows. by rewrite elem_of_map_to_list, map_lookup_filter_Some.
Qed.

Lemma representation_related ser instance s k :
  ser = RecipeSerializer ∨ ser = RecipeDetailSerializer →
  get (field_of k) (to_representation ser instance s)
  = Some (Items (represent_object (meta (named_serializer k)) <$>
                   related_rows k instance.1 s)).
Proof. intros [-> | ->]; destruct k; reflexivity. Qed.

Lemma represent_object_id k obj :
  get "id" (represent_object (meta (named_serializer k)) obj) = Some (Int obj.1).
Proof. destruct k; reflexivity. Qed.

(** With associations within one user, the related objects shown with a
    recipe are its owner's. *)
Lemma nested_representation_owner ser k u1 u2 pk t rpk r s l obj :
  ser = RecipeSerializer ∨ ser = RecipeDetailSerializer →
  same_owner s → u1 ≠ u2 →
  rows (manager k s) !! pk = Some t → row_user t = u1 →
  Recipe_objects s !! rpk = Some r → recipe_user r = u2 →
  get (field_of k) (to_representation ser (rpk, r) s) = Some (Items l) →
  obj ∈ l → get "id" obj ≠ Some (Int pk).
Proof.
  intros Hser Hinv Hne Hrow Hu Hrec Hown Hget Hin Hid.
  rewrite representation_related in Hget by done. injection Hget as <-.
  apply list_elem_of_fmap in Hin as ([pk' t'] & -> & Hin).
  rewrite represent_object_id in Hid. injection Hid as Hid. simpl in Hid.
  subst pk'. apply elem_of_related_rows in Hin as [Hrow' Hthr]. simpl in Hthr.
  destruct (Hinv k rpk pk Hthr) as (r0 & t0 & Hr0 & Ht0 & Hut). congruence.
Qed.

Section isolation.
Variable db : Backend.
Variable clean : string → scalar → option scalar.
Variable required : string → bool.

(** C6. For two distinct users, a recipe, tag or ingredient of the first
    is in no list of the second, and the second user's retrieve, update
    and delete of its id answer 404 and leave the store as it is.  On a
    store whose associations are within one user, which the operations
    keep so, a tag or ingredient of the first user is not among the
    related objects shown with a recipe of the second either. *)
Theorem cross_user_isolation u1 u2 s :
  u1 ≠ u2 →
  (∀ pk r,
     Recipe_objects s !! pk = Some r → recipe_user r = u1 →
     (∀ q, pk ∉ (recipe_queryset u2 q s).*1) ∧
     (∀ q d, d ∈ (recipe_list u2 q s).2 → get "id" d ≠ Some (Scalar (Int pk))) ∧
     recipe_retrieve u2 pk s = (HTTP_404_NOT_FOUND, None) ∧
     (∀ partial data,
        recipe_update db clean required partial u2 pk data s
        = (HTTP_404_NOT_FOUND, s)) ∧
     recipe_destroy u2 pk s = (HTTP_404_NOT_FOUND, s)) ∧
  (∀ k pk t,
     rows (manager k s) !! pk = Some t → row_user t = u1 →
     (∀ assigned_only, pk ∉ (named_queryset k u2 assigned_only s).*1) ∧
     (∀ assigned_only d,
        d ∈ (named_list k u2 assigned_only s).2 → get "id" d ≠ Some (Int pk)) ∧
     named_retrieve k u2 pk s = (HTTP_404_NOT_FOUND, None) ∧
     (∀ partial data,
        named_update clean required k partial u2 pk data s
        = (HTTP_404_NOT_FOUND, s)) ∧
     named_destroy k u2 pk s = (HTTP_404_NOT_FOUND, s) ∧
     (same_owner s →
      ∀ d l obj,
        (∃ q, d ∈ (recipe_list u2 q s).2) ∨
        (∃ rpk, recipe_retrieve u2 rpk s = (HTTP_200_OK, Some d)) →
        get (field_of k) d = Some (Items l) → obj ∈ l →
        get "id" obj ≠ Some (Int pk))).
Proof.
  intros Hne. split.
  - intros pk r Hrow Hu.
    assert (Hq : ∀ q, pk ∉ (recipe_queryset u2 q s).*1).
    { intros q Hin. apply list_elem_of_fmap in Hin as ([pk' r'] & -> & Hin).
      apply elem_of_recipe_queryset in Hin as (Hrow' & Hu' & _). simpl in *.
      congruence. }
    pose proof (get_recipe_other u1 u2 pk r s Hne Hrow Hu) as Hget.
    split_and!; [done| | | |].
    + intros q d Hin Hid. simpl in Hin.
      apply list_elem_of_fmap in Hin as (r0 & -> & Hin).
      injection Hid as Hid. apply (Hq q). apply list_elem_of_fmap.
      exists r0. by split.
    + unfold recipe_retrieve. by rewrite Hget.
    + intros partial data. unfold recipe_update. by rewrite Hget.
    + unfold recipe_destroy. by rewrite Hget.
  - intros k pk t Hrow Hu.
    assert (Hq : ∀ a, pk ∉ (named_queryset k u2 a s).*1).
    { intros a Hin. apply list_elem_of_fmap in Hin as ([pk' t'] & -> & Hin).
      apply elem_of_named_queryset in Hin as (Hrow' & Hu' & _). simpl in *.
      congruence. }
    pose proof (get_named_other k u1 u2 pk t s Hne Hrow Hu) as Hget.
    split_and!; [done| | | | |].
    + intros a d Hin Hid. simpl in Hin.
      apply list_elem_of_fmap in Hin as (t0 & -> & Hin).
      rewrite represent_object_id in Hid. injection Hid as Hid.
      apply (Hq a). apply list_elem_of_fmap. exists t0. by split.
    + unfold named_retrieve. by rewrite Hget.
    + intros partial data. unfold named_update. by rewrite Hget.
    + unfold named_destroy. by rewrite Hget.
    + intros Hinv d l obj [[q Hin]|[rpk Hret]] Hnested Hobj.
      * simpl in Hin. apply list_elem_of_fmap in Hin as ([rpk r] & -> & Hin).
        apply elem_of_recipe_queryset in Hin as (Hrec & Hown & _).
        eapply (nested_representation_owner RecipeSerializer); eauto.
      * unfold recipe_retrieve in Hret.
        destruct (get_recipe u2 rpk s) as [r|] eqn:Hget'; [|done].
        apply get_recipe_Some in Hget' as [Hrec Hown].
        injection Hret as <-.
        eapply (nested_representation_owner RecipeDetailSerializer); eauto.
Qed.
End isolation.

Lemma store_two_users_same_owner : same_owner store_two_users.
Proof.
  intros k rpk pk Hin.
  assert (Hcases : (rpk, pk) = (1, 1) ∨ (rpk, pk) = (2, 2)).
  { destruct k; simpl in Hin; apply elem_of_union in Hin as [Hin|Hin];
      apply elem_of_singleton in Hin; auto. }
  destruct Hcases as [[= -> ->]|[= -> ->]]; destruct k;
    eexists _, _; split_and!; reflexivity.
Defined.

Lemma cross_user_isolation_witness :
  (∀ q, 2 ∉ (recipe_queryset 1 q store_two_users).*1) ∧
  recipe_retrieve 1 2 store_two_users = (HTTP_404_NOT_FOUND, None) ∧
  recipe_destroy 1 2 store_two_users = (HTTP_404_NOT_FOUND, store_two_users) ∧
  (∀ assigned_only, 2 ∉ (named_queryset Tags 1 assigned_only store_two_users).*1) ∧
  named_update accept_all model_required Tags true 1 2 [("name", Str "mine")]
    store_two_users = (HTTP_404_NOT_FOUND, store_two_users) ∧
  named_destroy Ingredients 1 2 store_two_users
  = (HTTP_404_NOT_FOUND, store_two_users) ∧
  (∀ d l obj,
     (∃ q, d ∈ (recipe_list 1 q store_two_users).2) ∨
     (∃ rpk, recipe_retrieve 1 rpk store_two_users = (HTTP_200_OK, Some d)) →
     get "tags" d = Some (Items l) → obj ∈ l → get "id" obj ≠ Some (Int 2)).
Proof.
  assert (Hne : (2 : Z) ≠ 1) by lia.
  destruct (cross_user_isolation strict_columns accept_all model_required 2 1 store_two_users Hne)
    as [Hrecipe Hnamed].
  destruct (Hrecipe 2 (sample_recipe 2 "Sample recipe") eq_refl eq_refl)
    as (H1 & _ & H2 & _ & H3).
  destruct (Hnamed Tags 2 (mkNamed 2 "fruity") eq_refl eq_refl)
    as (H4 & _ & _ & H5 & _ & H7).
  destruct (Hnamed Ingredients 2 (mkNamed 2 "Veggie") eq_refl eq_refl)
    as (_ & _ & _ & _ & H6 & _).
  split_and!; [exact H1|exact H2|exact H3|exact H4|apply H5|exact H6|].
  exact (H7 store_two_users_same_owner).
Defined.

(** * Further properties of the serializers *)

(** ** What the nested get-or-create associates *)

(** The row a successful [get_or_create] returns is one its keyword
    arguments select. *)
Lemma get_or_create_Ok_matches db k u kw s pk created s' :
  get_or_create db k u kw s = Ok (pk, created) s' →
  ∃ row, rows (manager k s') !! pk = Some row ∧ matches_item u kw (pk, row).
Proof.
  intros E. apply get_or_create_Ok in E as (q & Hq & _ & _ & _ & Hc).
  destruct created.
  - destruct Hc as (_ & _ & -> & ->). eexists. rewrite lookup_insert_eq.
    split; [done|]. exists q. split; [done|]. apply created_row_matches.
  - destruct Hc as (-> & row & Hc).
    apply candidates_singleton in Hc as (Hrow & Hm & _).
    exists row. split; [done|]. by exists q.
Qed.

(** The loop, when it succeeds: every object has its row associated, and
    every association it added is the row of one of the objects. *)
Lemma get_or_create_each_Ok db k u r objs s s' :
  get_or_create_each db k u objs r s = Ok () s' →
  (∀ obj, obj ∈ objs →
     ∃ pk row, rows (manager k s') !! pk = Some row ∧
               matches_item u obj (pk, row) ∧ (r, pk) ∈ through k s') ∧
  (∀ p, p ∈ through k s' →
     p ∈ through k s ∨
     p.1 = r ∧ ∃ obj row, obj ∈ objs ∧ rows (manager k s') !! p.2 = Some row ∧
                          matches_item u obj (p.2, row)).
Proof.
  revert s. induction objs as [|obj objs IH]; intros s.
  - intros [= <-]. split; [|by left].
    intros obj Hin. by apply not_elem_of_nil in Hin.
  - rewrite get_or_create_each_cons.
    destruct (get_or_create db k u obj s) as [[pk created] s1|e s1] eqn:E; [|done].
    intros Hloop.
    destruct (get_or_create_frame db k u obj s) as (_ & Hthr & _). rewrite E in Hthr.
    cbn [final_state] in Hthr.
    apply get_or_create_Ok_matches in E as (row & Hrow & Hm).
    pose proof (get_or_create_each_post db k u r objs
      (set_through k ({[(r, pk)]} ∪ through k s1) s1)) as (Hsub & Hts & _).
    rewrite Hloop in Hsub, Hts. cbn [final_state] in Hsub, Hts.
    rewrite manager_set_through in Hsub. rewrite through_set_through in Hts.
    destruct (IH _ Hloop) as [IH1 IH2]. split.
    + intros obj' Hin. apply elem_of_cons in Hin as [->|Hin]; [|by apply IH1].
      exists pk, row. split_and!; [by eapply lookup_weaken|done|].
      apply Hts, elem_of_union_l, elem_of_singleton. done.
    + intros p Hp. destruct (IH2 p Hp) as [Hold|(Hr & obj' & row' & Hin & ? & ?)].
      * rewrite through_set_through, Hthr in Hold.
        apply elem_of_union in Hold as [Hnew|Hold]; [|by left].
        apply elem_of_singleton in Hnew as ->. right. split; [done|].
        exists obj, row. split_and!; [by left|by eapply lookup_weaken|done].
      * right. split; [done|]. exists obj', row'. split_and!; [by right|done|done].
Qed.

(** A successful [create] ran the loop of relation [k] on the objects
    given, from a store with the rows and associations of [s], and
    nothing after the loop touched the relation. *)
Lemma create_Ok_relation db k u vd objs s recipe s' :
  from_option id (Items []) (get (field_of k) vd) = Items objs →
  create db u vd s = Ok recipe s' →
  ∃ sa sb,
    manager k sa = manager k s ∧ through k sa = through k s ∧
    get_or_create_each db k u objs recipe.1 sa = Ok () sb ∧
    manager k s' = manager k sb ∧ through k s' = through k sb.
Proof.
  intros Hget. rewrite create_unfold.
  pose proof (Recipe_objects_create_frame db
                (remove "ingredient" (remove "tags" vd)) s) as [Hfr _].
  cbv zeta in Hfr.
  destruct (Recipe_objects_create db _ s) as [recipe0 s1|]; [|done].
  cbn [final_state] in Hfr.
  pose proof (nested_get_or_create_frame db Tags u
    (from_option id (Items []) (get "tags" vd)) recipe0.1 s1) as (_ & _ & Ht & _).
  destruct (nested_get_or_create db Tags _ _ _ s1) as [[] s2|] eqn:E2; [|done].
  cbn [final_state] in Ht.
  pose proof (nested_get_or_create_frame db Ingredients u
    (from_option id (Items []) (get "ingredient" vd)) recipe0.1 s2)
    as (_ & _ & Hi & _).
  destruct (nested_get_or_create db Ingredients _ _ _ s2) as [[] s3|] eqn:E3;
    [|done].
  cbn [final_state] in Hi. intros [= <- <-].
  destruct k; simpl in Hget; rewrite Hget in *.
  - exists s1, s2. destruct (Hfr Tags) as [-> ->].
    destruct (Hi Tags) as [-> ->]; done.
  - exists s2, s3. destruct (Ht Ingredients) as [-> ->]; [done|].
    destruct (Hfr Ingredients) as [-> ->]. done.
Qed.

(** The same for a successful [update], where the loop starts from the
    relation cleared of the recipe's associations. *)
Lemma update_Ok_relation db k u instance vd objs s instance' s' :
  from_option id (Items []) (get (field_of k) vd) = Items objs →
  update db u instance vd s = Ok instance' s' →
  ∃ sa sb,
    manager k sa = manager k s ∧
    (∀ p, p ∈ through k sa ↔ p ∈ through k s ∧ p.1 ≠ instance.1) ∧
    get_or_create_each db k u objs instance.1 sa = Ok () sb ∧
    manager k s' = manager k sb ∧ through k s' = through k sb.
Proof.
  intros Hget. rewrite update_unfold.
  pose proof (replace_related_frame db Tags u
    (from_option id (Items []) (get "tags" vd)) instance.1 s) as (_ & Ht & _).
  destruct (replace_related db Tags _ _ _ s) as [[] s1|] eqn:E1; [|done].
  cbn [final_state] in Ht.
  pose proof (replace_related_frame db Ingredients u
    (from_option id (Items []) (get "ingredient" vd)) instance.1 s1)
    as (_ & Hi & _).
  destruct (replace_related db Ingredients _ _ _ s1) as [[] s2|] eqn:E2; [|done].
  cbn [final_state] in Hi. intros Hsave.
  destruct (assign_and_save_frame db instance
              (remove "ingredient" (remove "tags" vd)) s2) as [Hfr _].
  rewrite Hsave in Hfr. cbn [final_state] in Hfr.
  assert (Hclr : ∀ k0 s0 p,
    p ∈ through k0 (set_through k0 (filter (λ p, p.1 ≠ instance.1)
                                     (through k0 s0)) s0)
    ↔ p ∈ through k0 s0 ∧ p.1 ≠ instance.1).
  { intros k0 s0 p. rewrite through_set_through, elem_of_filter. tauto. }
  destruct k; simpl in Hget; rewrite Hget in *;
    rewrite replace_related_Items in *.
  - eexists _, s1. split_and!; [apply manager_set_through|apply Hclr|exact E1| |].
    + destruct (Hfr Tags) as [-> _]. by destruct (Hi Tags) as [-> _].
    + destruct (Hfr Tags) as [_ ->]. by destruct (Hi Tags) as [_ ->].
  - eexists _, s2. destruct (Ht Ingredients) as [Hm Hthr]; [done|].
    split_and!; [rewrite manager_set_through; exact Hm| |exact E2| |].
    + intros p. rewrite Hclr, Hthr. done.
    + by destruct (Hfr Ingredients) as [-> _].
    + by destruct (Hfr Ingredients) as [_ ->].
Qed.

(** X1. After a successful [create], every object of the tag list (of
    the ingredient list) has a row of the requesting user that it
    selects, and that row is associated with the new recipe. *)
Theorem create_associates_every_object db k u vd objs s recipe s' :
  get (field_of k) vd = Some (Items objs) →
  create db u vd s = Ok recipe s' →
  ∀ obj, obj ∈ objs →
    ∃ pk row, rows (manager k s') !! pk = Some row ∧
              matches_item u obj (pk, row) ∧ (recipe.1, pk) ∈ through k s'.
Proof.
  intros Hget Hok obj Hin.
  assert (Hpop : from_option id (Items []) (get (field_of k) vd) = Items objs)
    by by rewrite Hget.
  destruct (create_Ok_relation db k u vd objs s recipe s' Hpop Hok)
    as (sa & sb & _ & _ & Hloop & Hm & Hthr).
  apply get_or_create_each_Ok in Hloop as [Hall _].
  rewrite Hm, Hthr. by apply Hall.
Qed.

Lemma create_associates_every_object_witness :
  ∃ pk row,
    rows (manager Tags
            (final_state (create strict_columns 1 data_existing_tag store_existing_tag)))
      !! pk = Some row ∧
    matches_item 1 [("name", Str "dinner")] (pk, row) ∧
    (1, pk) ∈ through Tags
                (final_state (create strict_columns 1 data_existing_tag store_existing_tag)).
Proof.
  apply (create_associates_every_object strict_columns Tags 1 data_existing_tag
           [[("name", Str "Thai")]; [("name", Str "dinner")]]
           store_existing_tag
           (1, [("id", Scalar (Int 1)); ("user_id", Scalar (Int 1));
                ("title", Scalar (Str "thai prawn curry"));
                ("time_minutes", Scalar (Int 30));
                ("price", Scalar (Str "10.00")); ("link", Scalar (Str ""));
                ("description", Scalar (Str "")); ("image", Scalar Null)])).
  - reflexivity.
  - vm_compute. reflexivity.
  - apply list_elem_of_further, list_elem_of_here.
Defined.

(** X2. After a successful [update] whose validated data has the tag
    list [objs] (the ingredient list), the recipe's associations are
    rebuilt from the list: every object has a row of the requesting user
    it selects associated with the recipe, and every row associated with
    the recipe is one that some object of the list selects; nothing of
    the former associations remains otherwise. *)
Theorem update_replaces_relation db k u instance vd objs s instance' s' :
  get (field_of k) vd = Some (Items objs) →
  update db u instance vd s = Ok instance' s' →
  (∀ obj, obj ∈ objs →
     ∃ pk row, rows (manager k s') !! pk = Some row ∧
               matches_item u obj (pk, row) ∧ (instance.1, pk) ∈ through k s') ∧
  (∀ pk, (instance.1, pk) ∈ through k s' →
     ∃ obj row, obj ∈ objs ∧ rows (manager k s') !! pk = Some row ∧
                matches_item u obj (pk, row)).
Proof.
  intros Hget Hok.
  assert (Hpop : from_option id (Items []) (get (field_of k) vd) = Items objs)
    by by rewrite Hget.
  destruct (update_Ok_relation db k u instance vd objs s instance' s' Hpop Hok)
    as (sa & sb & _ & Hclr & Hloop & Hm & Hthr).
  apply get_or_create_each_Ok in Hloop as [Hall Honly].
  rewrite Hm, Hthr. split; [done|].
  intros pk Hin. destruct (Honly _ Hin) as [Hold|(_ & obj & row & ? & ? & ?)].
  - apply Hclr in Hold as [_ Hne]. by destruct Hne.
  - eauto.
Qed.

Lemma update_replaces_relation_witness :
  let s' := final_state
              (update strict_columns 1 (1, sample_recipe 1 "Sample recipe")
                 [("tags", Items [[("name", Str "Lunch")]])]
                 store_tagged_recipe) in
  (∀ obj, obj ∈ [[("name", Str "Lunch")]] →
     ∃ pk row, rows (manager Tags s') !! pk = Some row ∧
               matches_item 1 obj (pk, row) ∧ (1, pk) ∈ through Tags s') ∧
  (∀ pk, (1, pk) ∈ through Tags s' →
     ∃ obj row, obj ∈ [[("name", Str "Lunch")]] ∧
                rows (manager Tags s') !! pk = Some row ∧
                matches_item 1 obj (pk, row)).
Proof.
  cbv zeta.
  apply (update_replaces_relation strict_columns Tags 1 (1, sample_recipe 1 "Sample recipe")
           [("tags", Items [[("name", Str "Lunch")]])]
           [[("name", Str "Lunch")]] store_tagged_recipe
           (1, load (1, sample_recipe 1 "Sample recipe"))).
  - reflexivity.
  - vm_compute. reflexivity.
Defined.

(** ** What [create] and [update] leave alone *)



(** X4. The two helpers never undo anything: whatever value they are
    given and however they end, every stored tag and ingredient row is
    still there unchanged, every association is still there, the helper
    of one relation leaves the table and associations of the other as
    they are, and no recipe row changes. *)
Theorem get_or_create_helpers_only_add db u v r s :
  (let s' := final_state (_get_or_create_tags db u v r s) in
   rows (Tag_objects s) ⊆ rows (Tag_objects s') ∧
   recipe_tags s ⊆ recipe_tags s' ∧
   Ingredient_objects s' = Ingredient_objects s ∧
   recipe_ingredient s' = recipe_ingredient s ∧
   Recipe_objects s' = Recipe_objects s) ∧
  (let s' := final_state (_get_or_create_ingredients db u v r s) in
   rows (Ingredient_objects s) ⊆ rows (Ingredient_objects s') ∧
   recipe_ingredient s ⊆ recipe_ingredient s' ∧
   Tag_objects s' = Tag_objects s ∧
   recipe_tags s' = recipe_tags s ∧
   Recipe_objects s' = Recipe_objects s).
Proof.
  split; cbv zeta.
  - destruct (nested_get_or_create_frame db Tags u v r s) as (H1 & H2 & H3 & H4).
    destruct (H3 Ingredients) as [H5 H6]; [done|]. split_and!; done.
  - destruct (nested_get_or_create_frame db Ingredients u v r s)
      as (H1 & H2 & H3 & H4).
    destruct (H3 Tags) as [H5 H6]; [done|]. split_and!; done.
Qed.


(** ** The columns [create] and [update] write *)



(** A successful [update] has run its close from a store with the
    recipes of the start. *)
Lemma update_Ok_close db u instance vd s r s' :
  update db u instance vd s = Ok r s' →
  ∃ s2, Recipe_objects s2 = Recipe_objects s ∧
        assign_and_save db instance (remove "ingredient" (remove "tags" vd)) s2
        = Ok r s'.
Proof.
  rewrite update_unfold.
  pose proof (replace_related_frame db Tags u
    (from_option id (Items []) (get "tags" vd)) instance.1 s) as (_ & _ & Hr1).
  destruct (replace_related db Tags _ _ _ s) as [[] s1|e s1];
    cbn [final_state] in *; [|done].
  pose proof (replace_related_frame db Ingredients u
    (from_option id (Items []) (get "ingredient" vd)) instance.1 s1)
    as (_ & _ & Hr2).
  destruct (replace_related db Ingredients _ _ _ s1) as [[] s2|e s2];
    cbn [final_state] in *; [|done].
  intros Hsave. exists s2. split; [congruence|done].
Qed.







(** ** No failure on tables without duplicate names *)



(** ** Running an update twice *)

(** ** Running an update twice *)


Lemma matches_item_name u n kv :
  matches_item u [("name", Str n)] kv ↔
  row_user kv.2 = u ∧ row_name kv.2 = n.
Proof.
  unfold matches_item, matching. simpl. split.
  - intros (q & [= <-] & Hu & _ & Hn). done.
  - intros [Hu Hn]. eexists. split; [reflexivity|]. done.
Qed.
















(** ** Saving through the recipe serializers *)

Section saving.
Variable db : Backend.
Variable clean : string → scalar → option scalar.
Variable required : string → bool.

(** X9. On a store where every association joins a recipe with a tag or
    ingredient of the recipe's owner, saving a payload through either
    recipe serializer keeps it so in every outcome, success or
    exception: for an update by the owner of the recipe, and for a
    create saved with the requesting user as owner. *)
Theorem saving_keeps_associations_within_owner ser u s :
  ser = RecipeSerializer ∨ ser = RecipeDetailSerializer →
  same_owner s →
  (∀ partial instance data o,
     Recipe_objects s !! instance.1 = Some instance.2 →
     recipe_user instance.2 = u →
     save_update db clean required ser partial u instance data s = Some o →
     same_owner (final_state o)) ∧
  (∀ data o,
     save_create db clean required ser u [("user", Scalar (Int u))] data s
       = Some o →
     same_owner (final_state o)).
Proof.
  intros Hser Hinv. split.
  - intros partial instance data o Hload Hu. unfold save_update, to_internal_value.
    destruct (validate_nesting _ _ _ _ _ data) as [vd|] eqn:Hvd; [|done].
    simpl. intros [= <-]. apply update_same_owner; try done.
    intros k Hk Hin. eapply validate_nesting_keys in Hin; [|done].
    by apply (writable_not_identity ser Hser k).
  - intros data o Hsave. by eapply save_create_same_owner.
Qed.
End saving.

Lemma saving_keeps_associations_within_owner_witness :
  (∀ partial instance data o,
     Recipe_objects store_two_users !! instance.1 = Some instance.2 →
     recipe_user instance.2 = 1 →
     save_update strict_columns accept_all model_required
       RecipeDetailSerializer partial 1 instance data store_two_users
       = Some o →
     same_owner (final_state o)) ∧
  (∀ data o,
     save_create strict_columns accept_all model_required
       RecipeDetailSerializer 1 [("user", Scalar (Int 1))] data store_two_users
       = Some o →
     same_owner (final_state o)).
Proof.
  apply (saving_keeps_associations_within_owner strict_columns accept_all
           model_required RecipeDetailSerializer 1 store_two_users).
  - right. reflexivity.
  - exact store_two_users_same_owner.
Defined.

(** ** The wire form after a save *)

Lemma represent_object_named k pk row :
  represent_object (meta (named_serializer k)) (pk, row)
  = [("id", Int pk); ("name", Str (row_name row))].
Proof. destruct k; reflexivity. Qed.

(** A successful [update] with validated data that names none of [id],
    [pk], [user], [user_id] returns the instance under the key it was
    given. *)
Lemma update_Ok_key db u instance vd s instance' s' :
  (∀ k, k ∈ identity_keys → k ∉ vd.*1) →
  update db u instance vd s = Ok instance' s' → instance'.1 = instance.1.
Proof.
  intros Hid Hok. apply update_Ok_close in Hok as (s2 & _ & Hsave).
  apply assign_and_save_Ok in Hsave as (obj & _ & _ & -> & _);
    [done|by apply removed_identity].
Qed.

(** X10. The wire form of a recipe after a successful save lists the
    names sent: with a tag list (ingredient list) of [{'name': ...}]
    objects, the related objects shown for the recipe returned, whatever
    its columns, hold every name of the list after [create]; after
    [update], with validated data that names none of [id], [pk], [user],
    [user_id], the names shown are exactly the names of the list. *)
Theorem wire_form_shows_names_sent db ser k u vd objs s :
  ser = RecipeSerializer ∨ ser = RecipeDetailSerializer →
  get (field_of k) vd = Some (Items objs) →
  name_only objs →
  (∀ recipe s' row l n,
     create db u vd s = Ok recipe s' →
     get (field_of k) (to_representation ser (recipe.1, row) s')
       = Some (Items l) →
     [("name", Str n)] ∈ objs →
     ∃ pk, [("id", Int pk); ("name", Str n)] ∈ l) ∧
  (∀ instance instance' s' row l n,
     (∀ key, key ∈ identity_keys → key ∉ vd.*1) →
     update db u instance vd s = Ok instance' s' →
     get (field_of k) (to_representation ser (instance'.1, row) s')
       = Some (Items l) →
     [("name", Str n)] ∈ objs ↔
     ∃ pk, [("id", Int pk); ("name", Str n)] ∈ l).
Proof.
  intros Hser Hget Hobjs.
  assert (Hpop : from_option id (Items []) (get (field_of k) vd) = Items objs)
    by by rewrite Hget.
  assert (Hshown : ∀ (rpk : Z) s' pk row n,
    rows (manager k s') !! pk = Some row → row_name row = n →
    (rpk, pk) ∈ through k s' →
    [("id", Int pk); ("name", Str n)]
    ∈ represent_object (meta (named_serializer k)) <$> related_rows k rpk s').
  { intros rpk s' pk row n Hrow <- Hthr. apply list_elem_of_fmap.
    exists (pk, row). split; [by rewrite represent_object_named|].
    by apply elem_of_related_rows. }
  split.
  - intros recipe s' row0 l n Hok Hrep Hin.
    rewrite representation_related in Hrep by done. injection Hrep as <-.
    destruct (create_Ok_relation db k u vd objs s recipe s' Hpop Hok)
      as (sa & sb & _ & _ & Hloop & Hm & Hthr).
    apply get_or_create_each_Ok in Hloop as [Hall _].
    destruct (Hall _ Hin) as (pk & row & Hrow & Hmatch & Hassoc).
    apply matches_item_name in Hmatch as [_ Hn]. simpl in Hn.
    exists pk. eapply Hshown; [by rewrite Hm|done|by rewrite Hthr].
  - intros instance instance' s' row0 l n Hid Hok Hrep.
    rewrite representation_related in Hrep by done. injection Hrep as <-.
    cbn [fst]. rewrite (update_Ok_key db u instance vd s instance' s' Hid Hok).
    destruct (update_Ok_relation db k u instance vd objs s instance' s' Hpop Hok)
      as (sa & sb & _ & Hclr & Hloop & Hm & Hthr).
    apply get_or_create_each_Ok in Hloop as [Hall Honly]. split.
    + intros Hin. destruct (Hall _ Hin) as (pk & row & Hrow & Hmatch & Hassoc).
      apply matches_item_name in Hmatch as [_ Hn]. simpl in Hn.
      exists pk.
      eapply Hshown; [by rewrite Hm|done|by rewrite Hthr].
    + intros [pk Hin]. apply list_elem_of_fmap in Hin as ([pk' row] & Heq & Hin).
      rewrite represent_object_named in Heq. injection Heq as <- Hn.
      apply elem_of_related_rows in Hin as [Hrow Hassoc].
      rewrite Hthr in Hassoc.
      destruct (Honly _ Hassoc) as [Hold|(_ & obj & row' & Hobj & Hrow' & Hmatch)].
      { apply Hclr in Hold as [_ Hne]. by destruct Hne. }
      pose proof (proj1 (Forall_forall _ _) Hobjs obj Hobj) as [n' ->].
      apply matches_item_name in Hmatch as [_ Hn']. simpl in Hrow', Hn'.
      rewrite Hm in Hrow. assert (row' = row) as -> by congruence.
      assert (n' = n) as <- by congruence. done.
Qed.

Lemma wire_form_shows_names_sent_witness :
  let objs := [[("name", Str "Thai")]; [("name", Str "dinner")]] in
  let vd := [("title", Scalar (Str "thai prawn curry")); ("tags", Items objs)] in
  (∀ recipe s' row l n,
     create strict_columns 1 data_existing_tag store_existing_tag
       = Ok recipe s' →
     get (field_of Tags) (to_representation RecipeSerializer (recipe.1, row) s')
       = Some (Items l) →
     [("name", Str n)] ∈ objs →
     ∃ pk, [("id", Int pk); ("name", Str n)] ∈ l) ∧
  (∀ instance instance' s' row l n,
     update strict_columns 1 instance vd store_existing_tag = Ok instance' s' →
     get (field_of Tags)
       (to_representation RecipeSerializer (instance'.1, row) s')
       = Some (Items l) →
     [("name", Str n)] ∈ objs ↔
     ∃ pk, [("id", Int pk); ("name", Str n)] ∈ l).
Proof.
  cbv zeta. split.
  - apply (wire_form_shows_names_sent strict_columns RecipeSerializer Tags 1
             data_existing_tag
             [[("name", Str "Thai")]; [("name", Str "dinner")]]
             store_existing_tag).
    + left. reflexivity.
    + reflexivity.
    + repeat constructor; eauto.
  - intros instance instance' s' row l n.
    apply (wire_form_shows_names_sent strict_columns RecipeSerializer Tags 1
             [("title", Scalar (Str "thai prawn curry"));
              ("tags", Items [[("name", Str "Thai")]; [("name", Str "dinner")]])]
             [[("name", Str "Thai")]; [("name", Str "dinner")]]
             store_existing_tag).
    + left. reflexivity.
    + reflexivity.
    + repeat constructor; eauto.
    + intros key Hkey Hin. simpl in Hin. unfold identity_keys in Hkey.
      repeat (apply elem_of_cons in Hin as [->|Hin]; [set_solver|]).
      by apply not_elem_of_nil in Hin.
Defined.

(** ** What validation hands to the serializers *)

Section validated_data.
Variable clean : string → scalar → option scalar.
Variable required : string → bool.

(** Each value of validated data is the payload's value for the key,
    validated: by the nested serializer, object by object, for a declared
    relation, by the field's own validation otherwise. *)
Lemma validate_nesting_get partial nested fs data vd f v :
  validate_nesting clean required partial nested fs data = Some vd →
  get f vd = Some v →
  match get f nested with
  | Some child =>
      ∃ l l', get f data = Some (Items l) ∧
              mapM (validate_object clean required partial child) l = Some l' ∧
              v = Items l'
  | None =>
      ∃ x x', get f data = Some (Scalar x) ∧ clean f x = Some x' ∧
              v = Scalar x'
  end.
Proof.
  revert vd. induction fs as [|f0 fs IH]; intros vd; simpl.
  - by intros [= <-].
  - destruct (get f0 nested) as [child|] eqn:Hn,
      (get f0 data) as [[x|l]|] eqn:Hd; try done.
    + destruct (mapM _ l) as [l'|] eqn:Hm; [|done]. simpl.
      destruct (validate_nesting _ _ _ _ fs data) as [rest|]; [|done].
      intros [= <-]. simpl. destruct (decide (f0 = f)) as [->|Hne].
      * intros [= <-]. rewrite Hn. eauto.
      * by apply IH.
    + apply IH.
    + destruct (clean f0 x) as [x'|] eqn:Hc; [|done]. simpl.
      destruct (validate_nesting _ _ _ _ fs data) as [rest|]; [|done].
      intros [= <-]. simpl. destruct (decide (f0 = f)) as [->|Hne].
      * intros [= <-]. rewrite Hn. eauto.
      * by apply IH.
    + destruct partial; [|destruct (required f0); [done|]]; apply IH.
Qed.

(** X11. The validated data either recipe serializer hands to [create]
    and [update]: its keys are distinct and are writable fields of the
    serializer, so never [id] or [user]; a scalar value is the payload's
    value as the field's validation returns it; the value under [tags]
    or [ingredient] is the payload's list validated object by object by
    the nested serializer, each object keeping at most its [name]. *)
Theorem validated_data_shape ser partial data vd :
  ser = RecipeSerializer ∨ ser = RecipeDetailSerializer →
  to_internal_value clean required partial ser data = Some vd →
  NoDup vd.*1 ∧
  vd.*1 ⊆ writable_fields (meta ser) ∧
  ("id" ∉ vd.*1) ∧ ("user" ∉ vd.*1) ∧
  (∀ f x', get f vd = Some (Scalar x') →
     ∃ x, get f data = Some (Scalar x) ∧ clean f x = Some x') ∧
  (∀ f objs', get f vd = Some (Items objs') →
     ∃ k objs, f = field_of k ∧ get f data = Some (Items objs) ∧
       mapM (validate_object clean required partial (meta (named_serializer k)))
            objs = Some objs' ∧
       ∀ obj, obj ∈ objs' → obj = [] ∨ ∃ x, obj = [("name", x)]).
Proof.
  intros Hser Hval. unfold to_internal_value in Hval.
  assert (Hsub : vd.*1 `sublist_of` writable_fields (meta ser))
    by (eapply validate_nesting_sublist; exact Hval).
  assert (Hnd : NoDup (writable_fields (meta ser))).
  { destruct Hser as [-> | ->]; apply (bool_decide_unpack _);
      vm_compute; exact I. }
  assert (Hno : ("id" ∉ writable_fields (meta ser)) ∧
                ("user" ∉ writable_fields (meta ser))).
  { destruct Hser as [-> | ->]; split; apply (bool_decide_unpack _);
      vm_compute; exact I. }
  destruct Hno as [Hid Huser].
  pose proof (sublist_subseteq _ _ Hsub) as Hkeys.
  split_and!; [by eapply sublist_NoDup|done| | | |].
  - intros Hin. by apply Hid, Hkeys.
  - intros Hin. by apply Huser, Hkeys.
  - intros f x' Hget.
    pose proof (validate_nesting_get _ _ _ _ _ f _ Hval Hget) as Hv.
    destruct (get f (declared ser)) as [child|].
    + by destruct Hv as (l & l' & _ & _ & [=]).
    + destruct Hv as (x & x'' & ? & ? & [= ->]). eauto.
  - intros f objs' Hget.
    pose proof (validate_nesting_get _ _ _ _ _ f _ Hval Hget) as Hv.
    assert (Hdecl : ∀ child, get f (declared ser) = Some child →
              ∃ k, f = field_of k ∧ child = meta (named_serializer k)).
    { intros child. destruct Hser as [-> | ->]; simpl;
        repeat case_decide; subst; try done; intros [= <-];
        [exists Tags|exists Ingredients|exists Tags|exists Ingredients]; done. }
    destruct (get f (declared ser)) as [child|];
      [|by destruct Hv as (x & x' & _ & _ & [=])].
    destruct Hv as (l & l' & Hdata & Hmap & [= ->]).
    destruct (Hdecl child eq_refl) as (k & -> & ->).
    exists k, l. split_and!; [done|done|done|].
    intros obj Hin. apply mapM_Some_1 in Hmap.
    apply list_elem_of_lookup in Hin as [i Hi].
    destruct (Forall2_lookup_r _ _ _ _ _ Hmap Hi) as (raw & _ & Hobj).
    rewrite validate_object_named in Hobj.
    destruct (get "name" raw) as [x|].
    + destruct (clean "name" x) as [x'|]; [|done]. injection Hobj as <-. eauto.
    + destruct partial; [|destruct (required "name"); [done|]];
        injection Hobj as <-; by left.
Qed.

Lemma validate_nesting_app partial nested fs gs data :
  validate_nesting clean required partial nested (fs ++ gs) data =
  (a ← validate_nesting clean required partial nested fs data;
   b ← validate_nesting clean required partial nested gs data;
   Some (a ++ b)).
Proof.
  induction fs as [|f fs IH]; simpl.
  - by destruct (validate_nesting _ _ _ _ gs data).
  - rewrite IH.
    destruct (get f nested) as [child|], (get f data) as [[x|l]|]; try done.
    + destruct (mapM _ l) as [l'|]; [|done]. simpl.
      destruct (validate_nesting _ _ _ _ fs data) as [a|]; [|done]. simpl.
      by destruct (validate_nesting _ _ _ _ gs data).
    + destruct (clean f x) as [x'|]; [|done]. simpl.
      destruct (validate_nesting _ _ _ _ fs data) as [a|]; [|done]. simpl.
      by destruct (validate_nesting _ _ _ _ gs data).
    + by destruct partial, (required f).
Qed.

(** X12. The detail serializer validates a payload as the recipe
    serializer does and adds the description: it accepts the payload
    exactly when the recipe serializer accepts it and the description,
    if given, is valid (and given at all, in a full validation of a
    model that requires it), and its validated data is that of the
    recipe serializer followed by the description. *)
Theorem detail_validates_as_recipe_plus_description partial data :
  to_internal_value clean required partial RecipeDetailSerializer data =
  (vd ← to_internal_value clean required partial RecipeSerializer data;
   d ← (match get "description" data with
        | Some (Scalar x) =>
            x' ← clean "description" x; Some [("description", Scalar x')]
        | Some (Items _) => None
        | None =>
            if partial then Some []
            else if required "description" then None else Some []
        end);
   Some (vd ++ d)).
Proof.
  unfold to_internal_value.
  change (writable_fields (meta RecipeDetailSerializer))
    with (writable_fields (meta RecipeSerializer) ++ ["description"]).
  change (declared RecipeDetailSerializer) with (declared RecipeSerializer).
  rewrite validate_nesting_app.
  destruct (validate_nesting _ _ _ _ (writable_fields _) data) as [vd|]; [|done].
  simpl. destruct (get "description" data) as [[x|l]|].
  - by destruct (clean "description" x).
  - done.
  - by destruct partial, (required "description").
Qed.

End validated_data.

Lemma validated_data_shape_witness :
  let data := [("id", Scalar (Int 9)); ("title", Scalar (Str "Test Recipe"));
               ("time_minutes", Scalar (Int 10)); ("price", Scalar (Str "5.00"));
               ("tags", Items [[("id", Int 7); ("name", Str "break fast")]])] in
  let vd := [("title", Scalar (Str "Test Recipe"));
             ("time_minutes", Scalar (Int 10)); ("price", Scalar (Str "5.00"));
             ("tags", Items [[("name", Str "break fast")]])] in
  NoDup vd.*1 ∧
  vd.*1 ⊆ writable_fields (meta RecipeSerializer) ∧
  ("id" ∉ vd.*1) ∧ ("user" ∉ vd.*1) ∧
  (∀ f x', get f vd = Some (Scalar x') →
     ∃ x, get f data = Some (Scalar x) ∧ accept_all f x = Some x') ∧
  (∀ f objs', get f vd = Some (Items objs') →
     ∃ k objs, f = field_of k ∧ get f data = Some (Items objs) ∧
       mapM (validate_object accept_all model_required false
               (meta (named_serializer k))) objs = Some objs' ∧
       ∀ obj, obj ∈ objs' → obj = [] ∨ ∃ x, obj = [("name", x)]).
Proof.
  cbv zeta.
  apply (validated_data_shape accept_all model_required RecipeSerializer false).
  - left. reflexivity.
  - reflexivity.
Defined.




(** ** The [create_recipe] helper of the tests *)



